(** * akid: the Block lifecycle and parameter-sharing protocol

    A shallow embedding of [core/blocks.py] (classes [Block] and
    [ProcessingLayer]) and of the exponential-decay learning-rate policy
    exercised by [tests/test_kongfus.py].

    Python objects live in a heap indexed by locations, so that the shallow
    copy made by [get_val_copy] shares the [var_list] list object with the
    instance it was copied from.  The TensorFlow graph is an external
    collaborator: it is an abstract interface, [Backend].  The classes that
    derive from [Block] and [ProcessingLayer] are not part of [blocks.py]:
    [setup] dispatches through a method table, and the [_setup] of a
    concrete layer is a [body], a program over the operations [blocks.py]
    offers to it. *)

From stdpp Require Import gmap strings list fin_maps.
From Stdlib Require Import QArith Qpower Qabs.

Local Close Scope Q_scope.
Local Open Scope string_scope.
Local Open Scope list_scope.

Abbreviation loc := nat.

(** ** Python values *)

(** A Python float: every finite float is a rational; the three special
    values compare as IEEE 754 prescribes. *)
Inductive num :=
| Finite (q : Q)
| PosInf
| NegInf
| NaN.

(** [bool(x)] for a float: zero is the only falsy one. *)
Definition num_truthy (x : num) : bool :=
  match x with
  | Finite q => negb (Qeq_bool q 0)
  | _ => true
  end.

(** [x >= 0.5] *)
Definition num_ge_half (x : num) : bool :=
  match x with
  | Finite q => Qle_bool (1 # 2) q
  | PosInf => true
  | NegInf | NaN => false
  end.

(** [x < 1] *)
Definition num_lt_one (x : num) : bool :=
  match x with
  | Finite q => negb (Qle_bool 1 q)
  | NegInf => true
  | PosInf | NaN => false
  end.

(** The interval [[0.5, 1.0)]. *)
Definition in_decay_range (x : num) : Prop :=
  match x with
  | Finite q => (1 # 2 <= q)%Q ∧ (q < 1)%Q
  | _ => False
  end.

(** Truthiness of an optional value ([None] is falsy). *)
Definition opt_truthy {A} (truthy : A → bool) (x : option A) : bool :=
  match x with
  | Some a => truthy a
  | None => false
  end.

(** [bool(s)] for a string. *)
Definition str_truthy (s : string) : bool :=
  match s with
  | EmptyString => false
  | _ => true
  end.

(** Truthiness of the [is_setup] flag: [None] and [False] are falsy. *)
Definition flag_truthy (f : option bool) : bool := opt_truthy id f.

(** ** Exceptions and results *)

Inductive exn :=
| SystemExit (code : Z)            (* raised by [sys.exit] *)
| AssertionError (msg : string)
| NotImplementedError (msg : string)
| AttributeError (attr : string)
| ValueError (msg : string)
| TypeError (takes given : nat)    (* a call with [given] arguments of a
                                      function that takes [takes] *)
| Dangling (l : loc).              (* a reference outside the heap; Python's
                                      heap never holds one *)

Inductive result (A : Type) :=
| Ok (a : A)
| Raise (e : exn).
Arguments Ok {A} a.
Arguments Raise {A} e.

(** ** The logger ([utils.glog])

    [utils/glog.py] is not among the sources: a call of the logger adds
    one line, its level and its message, to the log the world keeps. *)

Inductive level := INFO | ERROR | DEBUG.

(** One constructor per format string of [blocks.py], with its arguments. *)
Inductive message :=
| NameMissing (cls : string)
    (* "{}'s `name` argument cannot be None! It serves as an identifier,
       also is used in visualization and summary etc." *)
| HasBag (name : string) (bag : option (gmap string string))
    (* "{} has bag: {}" *)
| SummaryOnOutputs (name : string)
    (* "Do tensorboard summary on outputs of {}" *)
| SummaryOnVariables (name : string)
    (* "Do tensorboard summary on variables of {}" *)
| UseMovingAverage (op_name : string)
    (* "Use moving average of paras {}" *)
| ReuseParas (op_name : string).
    (* "Reuse paras {}" *)

(** ** Constants of [core.common] *)

Inductive collection := TRAIN_SUMMARY_COLLECTION | VALID_SUMMARY_COLLECTION.

(** ** The graph backend (TensorFlow)

    Every operation threads the backend's own state and may raise. *)
Class Backend := {
  graph : Type;
  variable : Type;          (* tf.Variable *)
  tensor : Type;            (* tf.Tensor *)
  initializer : Type;
  ema : Type;               (* tf.train.ExponentialMovingAverage *)
  operation : Type;         (* tf.Operation *)
  (* constants of [core.common] whose values the code never inspects *)
  GLOBAL_STEP : string;
  global_var_scope : string;
  SPARSITY_SUMMARY_SUFFIX : string;
  (* attributes of handles *)
  var_tensor : variable → tensor;       (* a variable read as a tensor *)
  var_name : variable → string;         (* var.op.name *)
  var_rank : variable → nat;            (* len(var.get_shape().as_list()) *)
  tensor_name : tensor → string;        (* t.op.name *)
  (* with tf.variable_scope(name, reuse=...) *)
  variable_scope_enter : string → option bool → graph → result unit * graph;
  variable_scope_exit : graph → graph;
  (* with tf.control_dependencies(ops) *)
  control_dependencies_enter : list operation → graph → result unit * graph;
  control_dependencies_exit : graph → graph;
  (* tf.get_variable(name, shape, initializer=initializer) *)
  get_variable :
    string → option (list Z) → option initializer → graph →
    result variable * graph;
  (* tf.train.ExponentialMovingAverage(decay, num_updates) *)
  ExponentialMovingAverage : num → variable → graph → result ema * graph;
  ema_apply : ema → list variable → graph → result operation * graph;
  ema_average : ema → variable → graph → result variable * graph;
  identity : tensor → string → graph → result tensor * graph;
  zero_fraction : tensor → graph → result tensor * graph;
  scalar_summary :
    string → tensor → list collection → graph → result unit * graph;
  histogram_summary :
    string → tensor → list collection → graph → result unit * graph
}.

(** ** Instances

    The attributes [Block.__init__] sets. *)
Record block := {
  name : string;
  do_summary : bool;
  bag : option (gmap string string);
  is_setup : option bool
}.

(** An instance of a class deriving from [Block]: the attributes of
    [Block] and those, of type [X], that its own class adds. *)
Record instance (X : Type) := Obj {
  base : block;
  ext : X
}.
Arguments Obj {X} base ext.
Arguments base {X} i.
Arguments ext {X} i.

(** [self.is_setup = v] *)
Definition set_is_setup {X} (v : option bool) (o : instance X) : instance X :=
  Obj {| name := name (base o); do_summary := do_summary (base o);
         bag := bag (base o); is_setup := v |} (ext o).

(** An assignment to an attribute the instance's own class adds. *)
Definition set_ext {X} (f : X → X) (o : instance X) : instance X :=
  Obj (base o) (f (ext o)).

(** ** The interpreter state and the monad of method bodies *)

Record world `{Backend} (X : Type) := World {
  objs : gmap loc (instance X);        (* instances *)
  lists : gmap loc (list variable);    (* Python list objects *)
  tf : graph;                          (* the backend's state *)
  glog : list (level * message)        (* what was logged, oldest first *)
}.
Arguments World {_ X} objs lists tf glog.
Arguments objs {_ X} w.
Arguments lists {_ X} w.
Arguments tf {_ X} w.
Arguments glog {_ X} w.

(** The world with the backend in state [g]. *)
Definition with_graph `{Backend} {X} (g : graph) (w : world X) : world X :=
  World (objs w) (lists w) g (glog w).

(** A method body: it reads and writes the world, returns or raises, and
    leaves a record of the calls of interest it made (events of type [V]).
    What a body wrote before raising stays written. *)
Definition T `{Backend} (X V A : Type) : Type :=
  world X → list V * (result A * world X).

Section Monad.
Context `{Backend} {X V : Type}.

Definition ret {A} (a : A) : T X V A := fun w => ([], (Ok a, w)).

Definition raise {A} (e : exn) : T X V A := fun w => ([], (Raise e, w)).

Definition bind {A B} (m : T X V A) (k : A → T X V B) : T X V B :=
  fun w =>
    match m w with
    | (evs, (Ok a, w1)) =>
        match k a w1 with
        | (evs', rw) => (evs ++ evs', rw)
        end
    | (evs, (Raise e, w1)) => (evs, (Raise e, w1))
    end.

(** Record one event. *)
Definition emit (v : V) : T X V unit := fun w => ([v], (Ok tt, w)).

(** [if c: body] *)
Definition when (c : bool) (body : T X V unit) : T X V unit :=
  if c then body else ret tt.

(** A call into the backend. *)
Definition backend {A} (f : graph → result A * graph) : T X V A :=
  fun w =>
    match f (tf w) with
    | (r, g) => ([], (r, with_graph g w))
    end.

(** The world once [msg] is logged. *)
Definition logged (lvl : level) (msg : message) (w : world X) : world X :=
  World (objs w) (lists w) (tf w) (glog w ++ [(lvl, msg)]).

(** [log.info], [log.error], [log.debug] *)
Definition log (lvl : level) (msg : message) : T X V unit :=
  fun w => ([], (Ok tt, logged lvl msg w)).

(** [sys.exit(code)] *)
Definition sys_exit {A} (code : Z) : T X V A := raise (SystemExit code).

(** Dereference [self]. *)
Definition deref (self : loc) : T X V (instance X) :=
  fun w =>
    match objs w !! self with
    | Some o => ([], (Ok o, w))
    | None => ([], (Raise (Dangling self), w))
    end.

(** Update the attributes of [self] in place. *)
Definition update (self : loc) (f : instance X → instance X)
  : T X V unit :=
  fun w =>
    match objs w !! self with
    | Some o =>
        ([], (Ok tt,
              World (<[self := f o]> (objs w)) (lists w) (tf w) (glog w)))
    | None => ([], (Raise (Dangling self), w))
    end.

(** Allocate a new instance. *)
Definition new (o : instance X) : T X V loc :=
  fun w =>
    let l := fresh (dom (objs w)) in
    ([], (Ok l, World (<[l := o]> (objs w)) (lists w) (tf w) (glog w))).

(** Allocate a new list object. *)
Definition new_list (vs : list variable) : T X V loc :=
  fun w =>
    let l := fresh (dom (lists w)) in
    ([], (Ok l, World (objs w) (<[l := vs]> (lists w)) (tf w) (glog w))).

(** Read a list object. *)
Definition read_list (l : loc) : T X V (list variable) :=
  fun w =>
    match lists w !! l with
    | Some vs => ([], (Ok vs, w))
    | None => ([], (Raise (Dangling l), w))
    end.

(** [l.append(v)]: the list object at [l] grows in place. *)
Definition list_append (l : loc) (v : variable) : T X V unit :=
  fun w =>
    match lists w !! l with
    | Some vs =>
        ([], (Ok tt,
              World (objs w) (<[l := vs ++ [v]]> (lists w)) (tf w) (glog w)))
    | None => ([], (Raise (Dangling l), w))
    end.

(** [with cm: body], for a context manager given by its entry and exit:
    the exit runs however the body ends, and an exception of the body
    propagates. When the entry raises, the body and the exit do not run. *)
Definition with_ {A}
    (enter : graph → result unit * graph) (exit : graph → graph)
    (body : T X V A) : T X V A :=
  fun w =>
    match backend enter w with
    | (_, (Ok _, w1)) =>
        match body w1 with
        | (evs, (r, w2)) =>
            (evs, (r, with_graph (exit (tf w2)) w2))
        end
    | (_, (Raise e, w1)) => ([], (Raise e, w1))
    end.

End Monad.

#[global] Instance T_ret `{Backend} {X V} : MRet (T X V) := @ret _ X V.
#[global] Instance T_bind `{Backend} {X V} : MBind (T X V) :=
  fun A B k m => bind m k.

(** Read an attribute that may not have been assigned yet. *)
Definition attr `{Backend} {X V A} (attr_name : string) (x : option A)
  : T X V A :=
  match x with
  | Some a => mret a
  | None => raise (AttributeError attr_name)
  end.

(** [for x in xs: body(x)] *)
Fixpoint for_each `{Backend} {X V A} (xs : list A) (body : A → T X V unit)
  : T X V unit :=
  match xs with
  | [] => mret tt
  | x :: xs' => body x;; for_each xs' body
  end.

(** ** The phases of [setup] and what a call of [setup] records *)

Inductive phase :=
| PreSetup | PreSetupShared | Setup | PostSetup | PostSetupShared.

(** The record of one [setup] call: the variable scope entered and left,
    each phase as it starts, what the phase itself recorded, and the
    exception a phase ended with. *)
Inductive event (E : Type) :=
| ScopeEnter (scope_name : string) (reuse : option bool)
| ScopeExit
| Begin (p : phase)
| During (p : phase) (e : E)
| Raised (p : phase) (e : exn).
Arguments ScopeEnter {E} scope_name reuse.
Arguments ScopeExit {E}.
Arguments Begin {E} p.
Arguments During {E} p e.
Arguments Raised {E} p e.

(** The method table of a class deriving from [Block]: the five methods
    [setup] dispatches to. *)
Record vtable `{Backend} (X E : Type) := VTable {
  v_pre_setup : loc → T X E unit;
  v_pre_setup_shared : loc → T X E unit;
  v_setup : loc → list tensor → T X E unit;
  v_post_setup : loc → T X E unit;
  v_post_setup_shared : loc → T X E unit
}.
Arguments VTable {_ X E}.
Arguments v_pre_setup {_ X E} v.
Arguments v_pre_setup_shared {_ X E} v.
Arguments v_setup {_ X E} v.
Arguments v_post_setup {_ X E} v.
Arguments v_post_setup_shared {_ X E} v.

(** ** class Block *)

Module Block.
Section Class.
Context `{Backend} {X E : Type}.

(** [Block.__init__(self, do_summary, name, bag)], for an instance of
    class [cls]: the attributes it sets, or the fatal exit. *)
Definition __init__ {V} (cls : string) (do_summary : bool)
    (name : option string) (bag : option (gmap string string))
  : T X V block :=
  match name with
  | Some n =>
      if negb (str_truthy n) then
        log ERROR (NameMissing cls);; sys_exit 1
      else
        log INFO (HasBag n bag);;
        mret {| name := n; do_summary := do_summary; bag := bag;
                is_setup := None |}
  | None => log ERROR (NameMissing cls);; sys_exit 1
  end.

(** The abstract [data]. *)
Definition data (self : loc) : T X E (option tensor) :=
  raise (NotImplementedError
    "Each concrete block needs to implement this method to provide an interface to offer data!").

Definition _pre_setup (self : loc) : T X E unit := mret tt.
Definition _pre_setup_shared (self : loc) : T X E unit := mret tt.
Definition _post_setup_shared (self : loc) : T X E unit := mret tt.
Definition _post_setup (self : loc) : T X E unit := mret tt.

(** The abstract [_setup]: declared [def _setup(self)] and called by
    [setup] with the inputs unpacked, it accepts no input. *)
Definition _setup (self : loc) (args : list tensor) : T X E unit :=
  match args with
  | [] =>
      raise (NotImplementedError
        "Each sub-layer needs to implement thismethod to process data!")
  | _ :: _ => raise (TypeError 1 (S (length args)))
  end.

(** The methods a class inherits from [Block] unless it overrides them. *)
Definition methods : vtable X E :=
  VTable _pre_setup _pre_setup_shared _setup _post_setup _post_setup_shared.

(** A method call made by [setup], recorded. *)
Definition call (p : phase) (m : T X E unit) : T X (event E) unit :=
  fun w =>
    match m w with
    | (evs, (Ok a, w')) => (Begin p :: map (During p) evs, (Ok a, w'))
    | (evs, (Raise e, w')) =>
        (Begin p :: map (During p) evs ++ [Raised p e], (Raise e, w'))
    end.

(** [with tf.variable_scope(scope_name, reuse=reuse): body], recorded. *)
Definition with_variable_scope {A} (scope_name : string)
    (reuse : option bool) (body : T X (event E) A) : T X (event E) A :=
  emit (ScopeEnter scope_name reuse);;
  with_ (variable_scope_enter scope_name reuse) variable_scope_exit
    (fun w =>
       match body w with
       | (evs, rw) => (evs ++ [ScopeExit], rw)
       end).

(** [Block.setup(self, *args)] for an instance whose class has the
    method table [m]. *)
Definition setup (m : vtable X E) (self : loc) (args : list tensor)
  : T X (event E) unit :=
  o ← deref self;
  with_variable_scope (name (base o)) (is_setup (base o)) (
    call PreSetup (v_pre_setup m self);;
    o1 ← deref self;
    when (negb (flag_truthy (is_setup (base o1))))
      (call PreSetupShared (v_pre_setup_shared m self));;
    call Setup (v_setup m self args);;
    call PostSetup (v_post_setup m self);;
    o2 ← deref self;
    when (negb (flag_truthy (is_setup (base o2))))
      (call PostSetupShared (v_post_setup_shared m self)));;
  update self (set_is_setup (Some true)).

End Class.
End Block.

(** ** class ProcessingLayer(Block) *)

(** The attributes [ProcessingLayer] adds. [_data], [_loss],
    [moving_averages] and [moving_averages_op] are assigned during setup
    only: [None] stands for an attribute the instance does not have, which
    is what [hasattr] tests. *)
Record layer `{Backend} := Layer {
  moving_average_decay : option num;
  var_list : loc;                       (* a reference to a list object *)
  is_val : bool;
  _data : option tensor;
  _loss : option tensor;
  moving_averages : option ema;
  moving_averages_op : option operation
}.
Arguments Layer {_}.

(** What a call of [_get_variable] records when it returns: the name asked
    for, the handle [tf.get_variable] resolved and the value returned. *)
Inductive acquisition `{Backend} :=
| Got (var_name : string) (handle : variable) (returned : variable).
Arguments Got {_}.

(** [s.split('/')[-1]] *)
Fixpoint last_segment_from (acc s : string) : string :=
  match s with
  | EmptyString => acc
  | String c s' =>
      if Ascii.eqb c (Ascii.ascii_of_nat 47) then last_segment_from "" s'
      else last_segment_from (acc ++ String c "")%string s'
  end.
Definition last_segment (s : string) : string := last_segment_from "" s.

(** The body of a concrete layer's [_setup], as far as the layer protocol
    sees it: it acquires parameters through [self._get_variable], computes
    in the backend, stores its outputs in [self._data] and [self._loss],
    and may raise. *)
Inductive body `{Backend} :=
| Return
| GetVariable (var_name : string) (shape : list Z) (init : initializer)
              (k : variable → body)
| Compute (f : graph → result tensor * graph) (k : tensor → body)
| StoreData (t : tensor) (k : body)
| StoreLoss (t : tensor) (k : body)
| Throw (e : exn).
Arguments Return {_}.
Arguments GetVariable {_}.
Arguments Compute {_}.
Arguments StoreData {_}.
Arguments StoreLoss {_}.
Arguments Throw {_}.

Module ProcessingLayer.
Section Class.
Context `{Backend}.

Abbreviation M := (T layer acquisition).

Definition set_is_val (v : bool) (x : layer) : layer :=
  Layer (moving_average_decay x) (var_list x) v (_data x) (_loss x)
        (moving_averages x) (moving_averages_op x).
Definition set_data (v : option tensor) (x : layer) : layer :=
  Layer (moving_average_decay x) (var_list x) (is_val x) v (_loss x)
        (moving_averages x) (moving_averages_op x).
Definition set_loss (v : option tensor) (x : layer) : layer :=
  Layer (moving_average_decay x) (var_list x) (is_val x) (_data x) v
        (moving_averages x) (moving_averages_op x).
Definition set_moving_averages (v : option ema) (x : layer) : layer :=
  Layer (moving_average_decay x) (var_list x) (is_val x) (_data x) (_loss x)
        v (moving_averages_op x).
Definition set_moving_averages_op (v : option operation) (x : layer)
  : layer :=
  Layer (moving_average_decay x) (var_list x) (is_val x) (_data x) (_loss x)
        (moving_averages x) v.

(** The condition asserted by [__init__]:
    [d is None or d >= 0.5 and d < 1]. *)
Definition decay_ok (d : option num) : bool :=
  match d with
  | None => true
  | Some x => num_ge_half x && num_lt_one x
  end.

(** [ProcessingLayer(moving_average_decay=..., do_summary=..., name=...,
    bag=...)] for a class [cls] that does not extend [__init__]: the
    reference to the new instance. The instance enters the heap once its
    attributes are set, so a construction that fails leaves none. *)
Definition __init__ {V} (cls : string) (moving_average_decay : option num)
    (do_summary : bool) (name : option string)
    (bag : option (gmap string string)) : T layer V loc :=
  b ← Block.__init__ cls do_summary name bag;
  if negb (decay_ok moving_average_decay) then
    raise (AssertionError
      "Invalid moving_average_decay value {}. Should be None or between [0.5, 1]")
  else
    vl ← new_list [];
    new (Obj b (Layer moving_average_decay vl false None None None None)).

Definition get_copy (self : loc) : M loc :=
  o ← deref self;
  new o.

Definition set_val (self : loc) : M unit :=
  update self (set_ext (set_is_val true)).

Definition get_val_copy (self : loc) : M loc :=
  val_copy ← get_copy self;
  set_val val_copy;;
  mret val_copy.

Definition _pre_setup_shared (self : loc) : M unit :=
  o ← deref self;
  match moving_average_decay (ext o) with
  | Some d =>
      when (num_truthy d) (
        step ← with_ (variable_scope_enter global_var_scope (Some true))
                     variable_scope_exit
                     (backend (get_variable GLOBAL_STEP None None));
        ma ← backend (ExponentialMovingAverage d step);
        update self (set_ext (set_moving_averages (Some ma))))
  | None => mret tt
  end.

(** The property [data]. *)
Definition data (self : loc) : M (option tensor) :=
  o ← deref self;
  mret (_data (ext o)).

(** The property [loss]. *)
Definition loss (self : loc) : M (option tensor) :=
  o ← deref self;
  mret (_loss (ext o)).

Definition _data_summary (data : tensor) (collection : collection)
  : M unit :=
  backend (histogram_summary (tensor_name data ++ "/activations")%string
                             data [collection]);;
  z ← backend (zero_fraction data);
  backend (scalar_summary
             (tensor_name data ++ "/" ++ SPARSITY_SUMMARY_SUFFIX)%string
             z [collection]).

Definition _post_setup (self : loc) : M unit :=
  o ← deref self;
  when (do_summary (base o)) (
    log INFO (SummaryOnOutputs (name (base o)));;
    let collection_to_add :=
      if is_val (ext o) then VALID_SUMMARY_COLLECTION
      else TRAIN_SUMMARY_COLLECTION in
    d ← data self;
    match d with
    | Some t => _data_summary t collection_to_add
    | None => mret tt
    end;;
    l ← loss self;
    match l with
    | Some t =>
        backend (scalar_summary (tensor_name t) t [collection_to_add])
    | None => mret tt
    end).

Definition _var_summary (tag : string) (var : variable) : M unit :=
  if (var_rank var =? 0)%nat then
    backend (scalar_summary tag (var_tensor var) [TRAIN_SUMMARY_COLLECTION])
  else
    backend (histogram_summary tag (var_tensor var)
                               [TRAIN_SUMMARY_COLLECTION]).

Definition _post_setup_shared (self : loc) : M unit :=
  o ← deref self;
  let decay := opt_truthy num_truthy (moving_average_decay (ext o)) in
  nonempty ← (if decay then
                vs ← read_list (var_list (ext o));
                mret (negb (length vs =? 0)%nat)
              else mret false);
  when nonempty (
    ma ← attr "moving_averages" (moving_averages (ext o));
    vs ← read_list (var_list (ext o));
    op ← backend (ema_apply ma vs);
    update self (set_ext (set_moving_averages_op (Some op)));;
    with_ (control_dependencies_enter [op]) control_dependencies_exit (
      d ← attr "_data" (_data (ext o));
      t ← backend (identity d (last_segment (tensor_name d) ++ "_")%string);
      update self (set_ext (set_data (Some t)))));;
  when (do_summary (base o)) (
    log INFO (SummaryOnVariables (name (base o)));;
    vs ← read_list (var_list (ext o));
    for_each vs (fun var => _var_summary (var_name var) var));;
  when decay (
    vs ← read_list (var_list (ext o));
    for_each vs (fun var =>
      ma ← attr "moving_averages" (moving_averages (ext o));
      var_average ← backend (ema_average ma var);
      _var_summary (var_name var ++ "_average")%string var_average)).

Definition _get_variable (self : loc) (name : string) (shape : list Z)
    (initializer : initializer) : M variable :=
  var ← backend (get_variable name (Some shape) (Some initializer));
  o ← deref self;
  var' ← (if flag_truthy (is_setup (base o)) then
            if opt_truthy num_truthy (moving_average_decay (ext o)) then
              log DEBUG (UseMovingAverage (var_name var));;
              ma ← attr "moving_averages" (moving_averages (ext o));
              backend (ema_average ma var)
            else
              log DEBUG (ReuseParas (var_name var));;
              mret var
          else
            (* Append it to the var list, do moving average later in
               [_post_setup]. *)
            list_append (var_list (ext o)) var;;
            mret var);
  emit (Got name var var');;
  mret var'.

(** Run the body of a concrete layer's [_setup]. *)
Fixpoint run (b : body) (self : loc) : M unit :=
  match b with
  | Return => mret tt
  | GetVariable name shape init k =>
      var ← _get_variable self name shape init;
      run (k var) self
  | Compute f k =>
      t ← backend f;
      run (k t) self
  | StoreData t k =>
      update self (set_ext (set_data (Some t)));;
      run k self
  | StoreLoss t k =>
      update self (set_ext (set_loss (Some t)));;
      run k self
  | Throw e => raise e
  end.

(** The method table of a concrete layer whose [_setup] is [impl]:
    [_pre_setup] is inherited from [Block]. *)
Definition methods (impl : list tensor → body) : vtable layer acquisition :=
  VTable Block._pre_setup _pre_setup_shared
         (fun self args => run (impl args) self)
         _post_setup _post_setup_shared.

(** [setup] of a concrete layer whose [_setup] is [impl]. *)
Definition setup (impl : list tensor → body) (self : loc)
    (args : list tensor) : T layer (event acquisition) unit :=
  Block.setup (methods impl) self args.

End Class.
End ProcessingLayer.

(** ** The exponential-decay learning-rate policy *)

Module KongFu.

(** Modelled from the spec: the learning-rate policy [exp_decay] of
    [core/kongfus.py], which is not among the sources (only its test,
    [tests/test_kongfus.py], is). The spec gives
    [rate(step) = base_lr * decay_rate ^ floor(step / (steps_per_epoch *
    decay_epoch_num))]; the two counts are positive integers and the step
    is a natural number; rates are rationals here, the code computes in
    floating point. *)
Definition exponential_decay (base_lr decay_rate : Q)
    (steps_per_epoch decay_epoch_num : positive) (step : N) : Q :=
  (base_lr
   * decay_rate
     ^ Z.of_N (step / N.pos (steps_per_epoch * decay_epoch_num)))%Q.

End KongFu.

(** ** A small backend to run the code on

    Handles are names: a variable is the name it was asked for, its moving
    average is that name with a suffix, and the graph keeps the summaries
    emitted. *)
Module Toy.

Definition pure {A} (a : A) (g : list string) : result A * list string :=
  (Ok a, g).

Definition summary (tag : string) (t : string) (c : list collection)
    (g : list string) : result unit * list string :=
  (Ok tt, g ++ [tag]).

Definition toy : Backend := {|
  graph := list string;
  variable := string;
  tensor := string;
  initializer := unit;
  ema := unit;
  operation := unit;
  GLOBAL_STEP := "global_step";
  global_var_scope := "global";
  SPARSITY_SUMMARY_SUFFIX := "sparsity";
  var_tensor := id;
  var_name := id;
  var_rank := fun _ => 1;
  tensor_name := id;
  variable_scope_enter := fun _ _ => pure tt;
  variable_scope_exit := id;
  control_dependencies_enter := fun _ => pure tt;
  control_dependencies_exit := id;
  get_variable := fun name _ _ => pure name;
  ExponentialMovingAverage := fun _ _ => pure tt;
  ema_apply := fun _ _ => pure tt;
  ema_average := fun _ v => pure (v ++ "/ExponentialMovingAverage")%string;
  identity := fun _ name => pure name;
  zero_fraction := fun t => pure (t ++ "/zero_fraction")%string;
  scalar_summary := summary;
  histogram_summary := summary
|}.

#[local] Existing Instance toy.

(** A one-parameter layer: [_setup] acquires ["weights"] and stores its
    input as its output; it raises when given no input. *)
Definition dense (args : list tensor) : body :=
  match args with
  | [] => Throw (ValueError "no input")
  | x :: _ =>
      GetVariable "weights" [2; 2]%Z tt (fun _ => StoreData x Return)
  end.

(** A layer whose [_setup] stores nothing. *)
Definition idle (args : list tensor) : body := Return.

(** The heap holding nothing. *)
Definition empty : world layer := World ∅ ∅ [] [].

(** A live layer at location 0 that has not been set up, and its (empty)
    list of parameters at location 0 of the lists. *)
Definition fresh_layer (decay : option num) : instance layer :=
  Obj {| name := "fc"; do_summary := true; bag := None; is_setup := None |}
      (Layer decay 0 false None None None None).

Definition one_layer (decay : option num) : world layer :=
  World {[ 0 := fresh_layer decay ]} {[ 0 := [] ]} [] [].

(** That layer, with a decay of 0.9, once set up on the input ["x"]. *)
Definition decay9 : option num := Some (Finite (9 # 10)).

Definition trained : world layer :=
  (ProcessingLayer.setup dense 0 ["x"] (one_layer decay9)).2.2.

Definition trained_layer : instance layer :=
  Obj {| name := "fc"; do_summary := true; bag := None;
         is_setup := Some true |}
      (Layer decay9 0 false (Some "x_") None (Some tt) (Some tt)).

End Toy.

(** ** Vocabulary of the statements *)

(** The [is_setup] flag of the instance at [self], if there is one. *)
Definition flag_of `{Backend} {X} (self : loc) (w : world X)
  : option (option bool) :=
  (fun o => is_setup (base o)) <$> objs w !! self.

(** A method body every run of which relates the world it starts in to
    the world it ends in, however it ends. *)
Definition respects `{Backend} {X V A} (R : relation (world X))
    (m : T X V A) : Prop :=
  ∀ w, R w (snd (snd (m w))).

(** A method body that never assigns [self.is_setup]. *)
Definition keeps_flag `{Backend} {X V A} (self : loc) (m : T X V A) : Prop :=
  respects (fun w w' => flag_of self w' = flag_of self w) m.

(** A relation kept by what every method body may do: nothing, one step
    after another, a call into the backend, a line in the log. *)
Class Frame `{Backend} {X} (R : relation (world X)) := {
  frame_refl : ∀ w, R w w;
  frame_trans : ∀ w1 w2 w3, R w1 w2 → R w2 w3 → R w1 w3;
  frame_graph : ∀ g w, R w (with_graph g w);
  frame_log : ∀ lvl msg w, R w (logged lvl msg w)
}.

(** What no method of [ProcessingLayer] changes in an instance: the
    attributes of [Block], the list [var_list] refers to, the decay and
    [is_val]; and an output stored in [_data] is never removed. *)
Definition same_skeleton `{Backend} (o o' : instance layer) : Prop :=
  base o' = base o ∧
  var_list (ext o') = var_list (ext o) ∧
  moving_average_decay (ext o') = moving_average_decay (ext o) ∧
  is_val (ext o') = is_val (ext o) ∧
  (is_Some (_data (ext o)) → is_Some (_data (ext o'))).

(** The instances are the same ones, each with the skeleton it had. *)
Definition evolves `{Backend} (w w' : world layer) : Prop :=
  ∀ l, option_Forall2 same_skeleton (objs w !! l) (objs w' !! l).

(** No list object changed. *)
Definition same_lists `{Backend} (w w' : world layer) : Prop :=
  lists w' = lists w.

(** The handles a record shows [_get_variable] resolved. *)
Definition handles `{Backend} (es : list acquisition) : list variable :=
  map (fun a => match a with Got _ h _ => h end) es.

(** The handles the [_setup] phase of a [setup] resolved, in order. *)
Fixpoint acquired `{Backend} (evs : list (event acquisition))
  : list variable :=
  match evs with
  | [] => []
  | During Setup (Got _ h _) :: evs' => h :: acquired evs'
  | _ :: evs' => acquired evs'
  end.

(** A [_setup] body that has stored an output in [_data] whenever it
    returns ([stored]: it already has). *)
Fixpoint stores_data `{Backend} (stored : bool) (b : body) : Prop :=
  match b with
  | Return => stored = true
  | GetVariable _ _ _ k => ∀ var, stores_data stored (k var)
  | Compute _ k => ∀ t, stores_data stored (k t)
  | StoreData _ k => stores_data true k
  | StoreLoss _ k => stores_data stored k
  | Throw _ => True
  end.

(** A method table none of whose methods assigns [self.is_setup]: the flag
    is [setup]'s own. *)
Definition keeps_flags `{Backend} {X E} (m : vtable X E) (self : loc) : Prop :=
  keeps_flag self (v_pre_setup m self) ∧
  keeps_flag self (v_pre_setup_shared m self) ∧
  (∀ args, keeps_flag self (v_setup m self args)) ∧
  keeps_flag self (v_post_setup m self) ∧
  keeps_flag self (v_post_setup_shared m self).

(** The part of a record that [setup] itself wrote: everything but what
    the phases recorded. *)
Fixpoint protocol {E} (evs : list (event E)) : list (event E) :=
  match evs with
  | [] => []
  | During _ _ :: evs' => protocol evs'
  | ev :: evs' => ev :: protocol evs'
  end.

(** The order of the phases of a [setup] that returns, on an instance
    named [scope_name] whose flag is [flag] when [setup] is called. *)
Definition phases_in_order {E} (scope_name : string) (flag : option bool)
  : list (event E) :=
  [ScopeEnter scope_name flag; Begin PreSetup]
  ++ (if flag_truthy flag then [] else [Begin PreSetupShared])
  ++ [Begin Setup; Begin PostSetup]
  ++ (if flag_truthy flag then [] else [Begin PostSetupShared])
  ++ [ScopeExit].

(** The phases a [setup] goes through, with the methods they call:
    [shared] tells whether the two shared phases are among them. *)
Definition schedule `{Backend} {X E} (m : vtable X E) (self : loc)
    (args : list tensor) (shared : bool) : list (phase * T X E unit) :=
  [(PreSetup, v_pre_setup m self)]
  ++ (if shared then [(PreSetupShared, v_pre_setup_shared m self)] else [])
  ++ [(Setup, v_setup m self args); (PostSetup, v_post_setup m self)]
  ++ (if shared then [(PostSetupShared, v_post_setup_shared m self)] else []).

(** Call the methods of a schedule one after the other, up to the first
    that raises. *)
Fixpoint run_phases `{Backend} {X E} (l : list (phase * T X E unit))
  : T X (event E) unit :=
  match l with
  | [] => mret tt
  | (p, h) :: l' => Block.call p h;; run_phases l'
  end.

(** What the record of one phase shows was resolved for registration:
    only [_setup] acquires parameters. *)
Definition resolved `{Backend} (p : phase) (es : list acquisition)
  : list variable :=
  match p with
  | Setup => handles es
  | _ => []
  end.

(** A call of [_get_variable] that returned the handle itself, and the
    records in which every call made by [_setup] did. *)
Definition raw `{Backend} (a : acquisition) : Prop :=
  match a with Got _ h r => r = h end.

Definition raw_setup `{Backend} (ev : event acquisition) : Prop :=
  match ev with
  | During Setup a => raw a
  | _ => True
  end.

(** A method of phase [p] that keeps the skeleton of every instance and
    touches the list objects in one way only: on an instance whose flag
    is falsy, by appending the handles it resolved to the list [var_list]
    refers to; and there [_setup] gets the handles themselves. *)
Definition tracks `{Backend} (self : loc) (p : phase)
    (h : T layer acquisition unit) : Prop :=
  ∀ w o, objs w !! self = Some o →
    evolves w (h w).2.2 ∧
    (flag_truthy (is_setup (base o)) = true → lists (h w).2.2 = lists w) ∧
    (flag_truthy (is_setup (base o)) = false →
     ∀ vs, lists w !! var_list (ext o) = Some vs →
       lists (h w).2.2
       = <[var_list (ext o) := vs ++ resolved p (h w).1]> (lists w)) ∧
    (flag_truthy (is_setup (base o)) = false → p = Setup →
     Forall raw (h w).1).

(** ** More vocabulary: what the methods leave alone *)

(** The phases of a [setup], in order, on an instance whose flag is
    [flag] when [setup] is called. *)
Definition phase_order (flag : option bool) : list phase :=
  [PreSetup]
  ++ (if flag_truthy flag then [] else [PreSetupShared])
  ++ [Setup; PostSetup]
  ++ (if flag_truthy flag then [] else [PostSetupShared]).

(** No instance changed. *)
Definition same_objs `{Backend} (w w' : world layer) : Prop :=
  objs w' = objs w.

(** The instances are the same ones, and [proj] reads of each what it
    read before. *)
Definition kept `{Backend} {A} (proj : instance layer → A)
    (w w' : world layer) : Prop :=
  ∀ l, proj <$> objs w' !! l = proj <$> objs w !! l.

(** No instance but the one at [self] changed. *)
Definition others_kept `{Backend} (self : loc) (w w' : world layer) : Prop :=
  ∀ l, l ≠ self → objs w' !! l = objs w !! l.

(** What the call of a method in phase [p] that returned left in the
    record of [setup]. *)
Definition recorded {E} (p : phase) (es : list E) : list (event E) :=
  Begin p :: map (During p) es.

(** The phase [p] of a [setup] that returns: when it is skipped nothing
    happens; otherwise its method [h] is called on the state [w], returns,
    and leaves the state [w'] and the record [evs]. *)
Definition ran `{Backend} {X E} (skip : bool) (p : phase) (h : T X E unit)
    (w : world X) (evs : list (event E)) (w' : world X) : Prop :=
  if skip then evs = [] ∧ w' = w
  else ∃ es, h w = (es, (Ok tt, w')) ∧ evs = recorded p es.

(** A call [setup( *args)] on the instance [o] at [self] that went, from
    the state [w], through its phases in order and returned: inside the
    scope named after the block and entered with [reuse] set to the flag,
    [_pre_setup] ran; with [f1] the flag read next, [_pre_setup_shared]
    ran unless [f1] is truthy; [_setup] ran on [args]; [_post_setup] ran;
    with [f4] the flag read next, [_post_setup_shared] ran unless [f4] is
    truthy; each on the state its predecessor left. Then the scope was
    left and the flag set to [True], which gives the state [w']; [evs] is
    the record of it all. *)
Definition went_through `{Backend} {X E} (m : vtable X E) (self : loc)
    (args : list tensor) (w : world X) (o : instance X)
    (f1 f4 : option bool) (evs : list (event E)) (w' : world X) : Prop :=
  ∃ g w1 w2 w3 w4 w5 o5 evs1 evs2 evs3 evs4 evs5,
    variable_scope_enter (name (base o)) (is_setup (base o)) (tf w)
      = (Ok tt, g) ∧
    ran false PreSetup (v_pre_setup m self) (with_graph g w) evs1 w1 ∧
    flag_of self w1 = Some f1 ∧
    ran (flag_truthy f1) PreSetupShared (v_pre_setup_shared m self)
        w1 evs2 w2 ∧
    ran false Setup (v_setup m self args) w2 evs3 w3 ∧
    ran false PostSetup (v_post_setup m self) w3 evs4 w4 ∧
    flag_of self w4 = Some f4 ∧
    ran (flag_truthy f4) PostSetupShared (v_post_setup_shared m self)
        w4 evs5 w5 ∧
    objs w5 !! self = Some o5 ∧
    evs = ScopeEnter (name (base o)) (is_setup (base o))
          :: (evs1 ++ evs2 ++ evs3 ++ evs4 ++ evs5) ++ [ScopeExit] ∧
    w' = World (<[self := set_is_setup (Some true) o5]> (objs w5))
               (lists w5) (variable_scope_exit (tf w5)) (glog w5).

(** The handles to register: what [tf.get_variable] answers, in order,
    to the requests of a [_setup] body run from the graph [g] on a layer
    never set up, each request being answered with the handle itself;
    the body stops at the first backend call that raises. This reads the
    body and the backend only; that [_get_variable] appends exactly these
    handles is what the theorems say. *)
Fixpoint handles_to_register `{Backend} (b : body) (g : graph)
  : list variable :=
  match b with
  | Return => []
  | GetVariable n shape init k =>
      match get_variable n (Some shape) (Some init) g with
      | (Ok var, g') => var :: handles_to_register (k var) g'
      | (Raise _, _) => []
      end
  | Compute f k =>
      match f g with
      | (Ok t, g') => handles_to_register (k t) g'
      | (Raise _, _) => []
      end
  | StoreData _ k => handles_to_register k g
  | StoreLoss _ k => handles_to_register k g
  | Throw _ => []
  end.

(** What a [setup] appends to the list [var_list] refers to, on an
    instance named [scope_name] whose flag is [flag] when [setup] is
    called from [w]: nothing in reuse mode, nothing when the scope cannot
    be entered or [_pre_setup_shared] raises, and otherwise the handles
    to register for the body of [_setup]. *)
Definition appended `{Backend} (b : body)
    (pre_setup_shared : T layer acquisition unit)
    (scope_name : string) (flag : option bool) (w : world layer)
  : list variable :=
  if flag_truthy flag then []
  else
    match variable_scope_enter scope_name flag (tf w) with
    | (Ok _, g) =>
        match pre_setup_shared (with_graph g w) with
        | (_, (Ok _, wp)) => handles_to_register b (tf wp)
        | (_, (Raise _, _)) => []
        end
    | (Raise _, _) => []
    end.

(** A string without ['/']. *)
Fixpoint slash_free (s : string) : bool :=
  match s with
  | EmptyString => true
  | String c s' => negb (Ascii.eqb c (Ascii.ascii_of_nat 47)) && slash_free s'
  end.

(** A backend like [Toy.toy] in which the global step was never created:
    looking it up raises. *)
Module Stepless.

Definition lookup (name : string) (shape : option (list Z))
    (init : option unit) (g : list string) : result string * list string :=
  if String.eqb name "global_step"
  then (Raise (ValueError "Variable global_step does not exist"), g)
  else (Ok name, g).

Definition toy : Backend := {|
  graph := list string;
  variable := string;
  tensor := string;
  initializer := unit;
  ema := unit;
  operation := unit;
  GLOBAL_STEP := "global_step";
  global_var_scope := "global";
  SPARSITY_SUMMARY_SUFFIX := "sparsity";
  var_tensor := id;
  var_name := id;
  var_rank := fun _ => 1;
  tensor_name := id;
  variable_scope_enter := fun _ _ => Toy.pure tt;
  variable_scope_exit := id;
  control_dependencies_enter := fun _ => Toy.pure tt;
  control_dependencies_exit := id;
  get_variable := lookup;
  ExponentialMovingAverage := fun _ _ => Toy.pure tt;
  ema_apply := fun _ _ => Toy.pure tt;
  ema_average := fun _ v => Toy.pure (v ++ "/ExponentialMovingAverage")%string;
  identity := fun _ name => Toy.pure name;
  zero_fraction := fun t => Toy.pure (t ++ "/zero_fraction")%string;
  scalar_summary := Toy.summary;
  histogram_summary := Toy.summary
|}.

End Stepless.

(** * Verification *)

Ltac unfold_monad :=
  unfold mbind, mret, T_bind, T_ret, bind, ret, raise, when, emit, backend,
    log, logged, with_graph, sys_exit, deref, update, new, new_list,
    read_list, list_append, with_, attr in *.

Section Construction.
Context `{Backend}.

(** The asserted condition is membership of [[0.5, 1.0)]. *)
Lemma decay_ok_in_range (x : num) :
  ProcessingLayer.decay_ok (Some x) = true ↔ in_decay_range x.
Proof.
  destruct x as [q| | |]; simpl; try (split; [discriminate | tauto]).
  rewrite andb_true_iff, negb_true_iff, Qle_bool_iff.
  split; intros [Hlo Hhi]; split; try assumption.
  - apply Qnot_le_lt. intros Hle. apply Qle_bool_iff in Hle. congruence.
  - apply not_true_is_false. intros Hle. apply Qle_bool_iff in Hle.
    apply Qlt_not_le in Hhi. contradiction.
Qed.

(** A construction that returns. *)
Lemma init_inv {V} (cls : string) (decay : option num) (do_summary : bool)
    (name : option string) (bag : option (gmap string string))
    (w : world layer) evs (self : loc) w' :
  ProcessingLayer.__init__ (V := V) cls decay do_summary name bag w
    = (evs, (Ok self, w')) →
  ∃ n, name = Some n ∧ str_truthy n = true ∧
       ProcessingLayer.decay_ok decay = true ∧
       evs = [] ∧ self = fresh (dom (objs w)) ∧
       w' = World
              (<[self :=
                   Obj {| name := n; do_summary := do_summary;
                          bag := bag; is_setup := None |}
                       (Layer decay (fresh (dom (lists w))) false
                              None None None None)]> (objs w))
              (<[fresh (dom (lists w)) := []]> (lists w))
              (tf w) (glog w ++ [(INFO, HasBag n bag)]).
Proof.
  unfold ProcessingLayer.__init__, Block.__init__.
  destruct name as [n|]; [|discriminate].
  destruct (str_truthy n) eqn:Hn; [|discriminate].
  destruct (ProcessingLayer.decay_ok decay) eqn:Hd; [|discriminate].
  cbn. intros [= <- <- <-]. by exists n.
Qed.

(** C7. Constructing a [Block] whose name is [None] or the empty string
    is fatal: [Block.__init__] logs the error naming the class and raises
    [SystemExit(1)], returning no attributes, and the constructor of a
    [ProcessingLayer] ends the same way and leaves the heap without a new
    instance (and without a new list). *)
Theorem nameless_block_is_fatal {X V}
    (cls : string) (do_summary : bool) (bag : option (gmap string string))
    (decay : option num) (w : world X) (wl : world layer) :
  Block.__init__ (V := V) cls do_summary None bag w
    = ([], (Raise (SystemExit 1), logged ERROR (NameMissing cls) w)) ∧
  Block.__init__ (V := V) cls do_summary (Some "") bag w
    = ([], (Raise (SystemExit 1), logged ERROR (NameMissing cls) w)) ∧
  ProcessingLayer.__init__ (V := V) cls decay do_summary None bag wl
    = ([], (Raise (SystemExit 1), logged ERROR (NameMissing cls) wl)) ∧
  ProcessingLayer.__init__ (V := V) cls decay do_summary (Some "") bag wl
    = ([], (Raise (SystemExit 1), logged ERROR (NameMissing cls) wl)).
Proof. repeat split. Qed.

(** C6, as amended. A decay that is not [None] and lies outside
    [[0.5, 1.0)] makes the construction fail whatever the name: with the
    assertion's error when the name is non-empty, the heap being left as
    it was but for the log. A decay that is [None] or lies in
    [[0.5, 1.0)], with a non-empty name, makes the construction succeed:
    the new instance stores that decay, owns a new empty [var_list], is
    not a validation instance and has never been set up. *)
Theorem decay_checked_at_construction {V}
    (cls : string) (decay : option num) (do_summary : bool)
    (name : option string) (bag : option (gmap string string))
    (w : world layer) :
  ((∃ x, decay = Some x ∧ ¬ in_decay_range x) →
     (∃ e w', snd (ProcessingLayer.__init__ (V := V) cls decay do_summary
                     name bag w) = (Raise e, w')) ∧
     ∀ n, name = Some n → str_truthy n = true →
       ProcessingLayer.__init__ (V := V) cls decay do_summary name bag w
       = ([], (Raise (AssertionError
            "Invalid moving_average_decay value {}. Should be None or between [0.5, 1]"),
               logged INFO (HasBag n bag) w))) ∧
  ((decay = None ∨ ∃ x, decay = Some x ∧ in_decay_range x) →
     ∀ n, name = Some n → str_truthy n = true →
       ∃ self w',
         ProcessingLayer.__init__ (V := V) cls decay do_summary name bag w
           = ([], (Ok self, w')) ∧
         objs w !! self = None ∧
         lists w !! fresh (dom (lists w)) = None ∧
         glog w' = glog w ++ [(INFO, HasBag n bag)] ∧
         objs w' = <[self :=
             Obj {| name := n; do_summary := do_summary; bag := bag;
                    is_setup := None |}
                 (Layer decay (fresh (dom (lists w))) false
                        None None None None)]> (objs w) ∧
         lists w' = <[fresh (dom (lists w)) := []]> (lists w)).
Proof.
  split.
  - intros (x & -> & Hout).
    assert (Hno : ProcessingLayer.decay_ok (Some x) = false).
    { apply not_true_is_false. rewrite decay_ok_in_range. exact Hout. }
    split.
    + unfold ProcessingLayer.__init__, Block.__init__. rewrite Hno.
      destruct name as [[|c n]|]; simpl; eauto.
    + intros n -> Hn. unfold ProcessingLayer.__init__, Block.__init__.
      rewrite Hno, Hn. reflexivity.
  - intros Hin n -> Hn.
    assert (Hok : ProcessingLayer.decay_ok decay = true).
    { destruct Hin as [->|(x & -> & Hx)]; [reflexivity|].
      by apply decay_ok_in_range. }
    unfold ProcessingLayer.__init__, Block.__init__. rewrite Hok, Hn.
    eexists _, _. split; [reflexivity|]. cbn.
    repeat split; apply not_elem_of_dom, is_fresh.
Qed.

End Construction.

Section Sharing.
Context `{Backend}.
Implicit Types (w : world layer) (o : instance layer).

(** A decay in [[0.5, 1.0)] is truthy. *)
Lemma in_range_truthy (d : num) : in_decay_range d → num_truthy d = true.
Proof.
  destruct d as [q| | |]; simpl; try tauto. intros [Hlo _].
  apply negb_true_iff, not_true_is_false. intros Hz.
  apply Qeq_bool_iff in Hz. rewrite Hz in Hlo. revert Hlo. apply Qlt_not_le.
  reflexivity.
Qed.

(** What [get_val_copy] does: the copy is a new instance, equal to the
    original but for [is_val]. *)
Lemma get_val_copy_spec w (L : loc) o :
  objs w !! L = Some o →
  ProcessingLayer.get_val_copy L w
  = ([], (Ok (fresh (dom (objs w))),
          World (<[fresh (dom (objs w))
                   := set_ext (ProcessingLayer.set_is_val true) o]> (objs w))
                (lists w) (tf w) (glog w))).
Proof.
  intros HL.
  unfold ProcessingLayer.get_val_copy, ProcessingLayer.get_copy,
    ProcessingLayer.set_val.
  unfold_monad. rewrite HL. cbn. rewrite lookup_insert_eq. cbn.
  by rewrite insert_insert_eq.
Qed.

Lemma fresh_instance w (L : loc) o :
  objs w !! L = Some o → fresh (dom (objs w)) ≠ L.
Proof.
  intros HL Heq.
  assert (Hfresh : objs w !! fresh (dom (objs w)) = None)
    by apply not_elem_of_dom, is_fresh.
  congruence.
Qed.

(** C2. The validation copy of a live layer is a new instance that holds
    the same reference in [var_list], no list being created, and has
    [is_val] true; the live layer is left as it was, [is_val] false. *)
Theorem val_copy_shares_var_list w (L : loc) o :
  objs w !! L = Some o →
  is_val (ext o) = false →
  ∃ C w' c,
    ProcessingLayer.get_val_copy L w = ([], (Ok C, w')) ∧
    C ≠ L ∧
    objs w' !! C = Some c ∧
    var_list (ext c) = var_list (ext o) ∧
    is_val (ext c) = true ∧
    objs w' !! L = Some o ∧
    lists w' = lists w.
Proof.
  intros HL Hval. pose proof (fresh_instance w L o HL) as Hne.
  eexists _, _, _. split; [by apply get_val_copy_spec|]. cbn.
  rewrite lookup_insert_eq, lookup_insert_ne by done. done.
Qed.

(** C4. [_get_variable], once [tf.get_variable] has resolved the handle
    [var]: on an instance that has never completed setup the handle is
    appended to the list [var_list] refers to and returned as it is; on
    an instance that has completed setup nothing is appended and the
    call returns the moving average of the handle when a decay is
    configured, the handle itself when none is. *)
Theorem get_variable_registers_or_reuses w (self : loc) o
    (name : string) (shape : list Z) (init : initializer)
    (var : variable) (g : graph) :
  objs w !! self = Some o →
  get_variable name (Some shape) (Some init) (tf w) = (Ok var, g) →
  (flag_truthy (is_setup (base o)) = false →
     ∀ vs, lists w !! var_list (ext o) = Some vs →
       ProcessingLayer._get_variable self name shape init w
       = ([Got name var var],
          (Ok var, World (objs w)
                         (<[var_list (ext o) := vs ++ [var]]> (lists w))
                         g (glog w)))) ∧
  (flag_truthy (is_setup (base o)) = true →
     moving_average_decay (ext o) = None →
       ProcessingLayer._get_variable self name shape init w
       = ([Got name var var],
          (Ok var, logged DEBUG (ReuseParas (var_name var))
                          (with_graph g w)))) ∧
  (flag_truthy (is_setup (base o)) = true →
     ∀ d ma avg g',
       moving_average_decay (ext o) = Some d → in_decay_range d →
       moving_averages (ext o) = Some ma →
       ema_average ma var g = (Ok avg, g') →
       ProcessingLayer._get_variable self name shape init w
       = ([Got name var avg],
          (Ok avg, with_graph g'
                     (logged DEBUG (UseMovingAverage (var_name var))
                             (with_graph g w))))).
Proof.
  intros Hself Hvar. unfold ProcessingLayer._get_variable.
  repeat split.
  - intros Hflag vs Hvs. unfold_monad. rewrite Hvar. cbn.
    rewrite Hself, Hflag. cbn. rewrite Hvs. reflexivity.
  - intros Hflag Hdecay. unfold_monad. rewrite Hvar. cbn.
    rewrite Hself, Hflag, Hdecay. reflexivity.
  - intros Hflag d ma avg g' Hdecay Hd Hma Havg. unfold_monad.
    rewrite Hvar. cbn. rewrite Hself, Hflag, Hdecay, Hma. cbn.
    rewrite (in_range_truthy d Hd). cbn. rewrite Havg. reflexivity.
Qed.

End Sharing.

(** ** Laws of the monad *)

Section Laws.
Context `{Backend} {X V : Type}.
Implicit Types (w : world X).

Lemma bind_unfold {A B} (m : T X V A) (k : A → T X V B) w :
  (m ≫= k) w
  = match m w with
    | (evs, (Ok a, w1)) =>
        match k a w1 with (evs', rw) => (evs ++ evs', rw) end
    | (evs, (Raise e, w1)) => (evs, (Raise e, w1))
    end.
Proof. reflexivity. Qed.

Lemma bind_silent {A B} (m : T X V A) (k : A → T X V B) w a w1 :
  m w = ([], (Ok a, w1)) → (m ≫= k) w = k a w1.
Proof. intros Hm. rewrite bind_unfold, Hm. by destruct (k a w1). Qed.

(** The continuation matters only where the first part returns. *)
Lemma bind_ext_at {A B} (m : T X V A) (k k' : A → T X V B) w :
  (∀ evs a w1, m w = (evs, (Ok a, w1)) → k a w1 = k' a w1) →
  (m ≫= k) w = (m ≫= k') w.
Proof.
  intros Hk. rewrite !bind_unfold.
  destruct (m w) as [evs [[a|e] w1]]; [|done]. by rewrite (Hk evs a w1).
Qed.

(** What a bind that ran did: the first part raised, or it returned and
    the continuation ran. *)
Lemma bind_inv {A B} (m : T X V A) (k : A → T X V B) w evs r w' :
  (m ≫= k) w = (evs, (r, w')) →
  (∃ e, m w = (evs, (Raise e, w')) ∧ r = Raise e) ∨
  (∃ evs1 a w1 evs2,
      m w = (evs1, (Ok a, w1)) ∧ k a w1 = (evs2, (r, w')) ∧
      evs = evs1 ++ evs2).
Proof.
  rewrite bind_unfold. destruct (m w) as [evs1 [[a|e] w1]].
  - destruct (k a w1) as [evs2 rw] eqn:Hk. intros [= <- <-].
    right. by exists evs1, a, w1, evs2.
  - intros [= <- <- <-]. left. by exists e.
Qed.

Lemma bind_ret_r (m : T X V unit) w : (m ≫= λ _, mret tt) w = m w.
Proof.
  rewrite bind_unfold. destruct (m w) as [evs [[[]|e] w1]]; [|done].
  cbn. by rewrite app_nil_r.
Qed.

Lemma deref_lookup (self : loc) w o :
  objs w !! self = Some o → deref (V := V) self w = ([], (Ok o, w)).
Proof. unfold deref. by intros ->. Qed.

Lemma update_lookup (self : loc) f w o :
  objs w !! self = Some o →
  update (V := V) self f w
  = ([], (Ok tt, World (<[self := f o]> (objs w)) (lists w) (tf w) (glog w))).
Proof. unfold update. by intros ->. Qed.

End Laws.

Section Lifecycle.
Context `{Backend} {X E : Type}.
Implicit Types (w : world X) (m : vtable X E).

Lemma flag_of_lookup (self : loc) w o :
  objs w !! self = Some o → flag_of self w = Some (is_setup (base o)).
Proof. unfold flag_of. by intros ->. Qed.

Lemma flag_of_inv (self : loc) w f :
  flag_of self w = Some f →
  ∃ o, objs w !! self = Some o ∧ is_setup (base o) = f.
Proof.
  unfold flag_of. destruct (objs w !! self) as [o|]; [|done].
  intros [= <-]. eauto.
Qed.

(** What a method that keeps the flag leaves at [self]. *)
Lemma keeps_flag_after {V A} (self : loc) (h : T X V A) w f evs r w1 :
  keeps_flag self h →
  flag_of self w = Some f →
  h w = (evs, (r, w1)) →
  flag_of self w1 = Some f.
Proof.
  intros K Hself Hrun. specialize (K w). rewrite Hrun in K. cbn in K.
  congruence.
Qed.

Lemma protocol_app (l1 l2 : list (event E)) :
  protocol (l1 ++ l2) = protocol l1 ++ protocol l2.
Proof.
  induction l1 as [|[] l1 IH]; cbn; [done|by rewrite IH..|done|by rewrite IH].
Qed.

Lemma protocol_during (p : phase) (es : list E) :
  protocol (map (During p) es) = [].
Proof. induction es as [|e es IH]; [done|]. cbn. exact IH. Qed.

Lemma call_inv (p : phase) (h : T X E unit) w evs r w1 :
  Block.call p h w = (evs, (r, w1)) →
  ∃ es, h w = (es, (r, w1)) ∧
        evs = Begin p :: map (During p) es
              ++ match r with Raise e => [Raised p e] | Ok _ => [] end.
Proof.
  unfold Block.call. destruct (h w) as [es [[[]|e] w2]]; intros [= <- <- <-].
  - exists es. by rewrite app_nil_r.
  - by exists es.
Qed.

Lemma keeps_flag_call (self : loc) (p : phase) (h : T X E unit) :
  keeps_flag self h → keeps_flag self (Block.call p h).
Proof.
  intros K w. specialize (K w). unfold Block.call.
  by destruct (h w) as [es [[[]|e] w2]].
Qed.

(** The tests of the flag made inside [setup] see the flag [setup] was
    called with. *)
Lemma test_flag {A} (self : loc) (k : instance X → T X (event E) A) w f
    (k' : T X (event E) A) :
  flag_of self w = Some f →
  (∀ o, is_setup (base o) = f → k o w = k' w) →
  (deref self ≫= k) w = k' w.
Proof.
  intros Hf Hk. apply flag_of_inv in Hf as (o & Ho & Hf).
  rewrite (bind_silent _ _ _ _ _ (deref_lookup self w o Ho)). by apply Hk.
Qed.

Lemma with_variable_scope_ext {A} (scope_name : string)
    (reuse : option bool) (b b' : T X (event E) A) w :
  (∀ g, b (with_graph g w) = b' (with_graph g w)) →
  Block.with_variable_scope scope_name reuse b w
  = Block.with_variable_scope scope_name reuse b' w.
Proof.
  intros Hb. unfold Block.with_variable_scope. rewrite !bind_unfold. cbn.
  unfold with_, backend.
  destruct (variable_scope_enter scope_name reuse (tf w)) as [[[]|e] g];
    [|done].
  by rewrite Hb.
Qed.

(** Under [keeps_flags], [setup] runs the schedule selected by the flag
    it was called with. *)
Lemma setup_schedule m (self : loc) (args : list tensor) w o :
  keeps_flags m self →
  objs w !! self = Some o →
  Block.setup m self args w
  = (Block.with_variable_scope (name (base o)) (is_setup (base o))
       (run_phases
          (schedule m self args (negb (flag_truthy (is_setup (base o))))));;
     update self (set_is_setup (Some true))) w.
Proof.
  intros (K1 & K2 & K3 & K4 & K5) Hself. unfold Block.setup.
  rewrite (bind_silent _ _ _ _ _ (deref_lookup self w o Hself)).
  set (f := is_setup (base o)).
  assert (Hf : ∀ g, flag_of self (with_graph g w) = Some f)
    by (intros g; by apply flag_of_lookup).
  clearbody f. rewrite 2!(bind_unfold (Block.with_variable_scope _ _ _)).
  erewrite with_variable_scope_ext; [reflexivity|].
  intros g. specialize (Hf g). revert Hf. generalize (with_graph g w).
  clear w Hself. intros w Hf. unfold schedule. cbn [app run_phases].
  apply bind_ext_at. intros evs1 [] w1 H1.
  eapply keeps_flag_after in H1; [|by apply keeps_flag_call|done].
  apply (test_flag self _ w1 f _ H1). intros o1 ->.
  destruct (flag_truthy f) eqn:Hflag; cbn [negb when app run_phases].
  - rewrite (bind_silent (ret tt) _ w1 tt w1) by done.
    apply bind_ext_at. intros evs2 [] w2 H2.
    eapply keeps_flag_after in H2; [|by apply keeps_flag_call|done].
    apply bind_ext_at. intros evs3 [] w3 H3.
    eapply keeps_flag_after in H3; [|by apply keeps_flag_call|done].
    apply (test_flag self _ w3 _ _ H3). intros o3 ->. by rewrite Hflag.
  - apply bind_ext_at. intros evs2 [] w2 H2.
    eapply keeps_flag_after in H2; [|by apply keeps_flag_call|done].
    apply bind_ext_at. intros evs3 [] w3 H3.
    eapply keeps_flag_after in H3; [|by apply keeps_flag_call|done].
    apply bind_ext_at. intros evs4 [] w4 H4.
    eapply keeps_flag_after in H4; [|by apply keeps_flag_call|done].
    apply (test_flag self _ w4 _ _ H4). intros o4 ->. rewrite Hflag. cbn.
    by rewrite bind_ret_r.
Qed.

(** *** The schedule *)

(** A schedule that returns went through all its phases, in order. *)
Lemma run_phases_ok (l : list (phase * T X E unit)) w evs w' :
  run_phases l w = (evs, (Ok tt, w')) →
  protocol evs = map (λ ph, Begin ph.1) l.
Proof.
  revert w evs. induction l as [|[p h] l IH]; intros w evs; cbn [run_phases].
  - by intros [= <- <-].
  - intros Hrun. apply bind_inv in Hrun as [(e & _ & ?)|Hrun]; [done|].
    destruct Hrun as (evs1 & [] & w1 & evs2 & Hcall & Hrest & ->).
    apply call_inv in Hcall as (es & _ & ->). rewrite app_nil_r.
    cbn. rewrite protocol_app, protocol_during. cbn. f_equal. eauto.
Qed.

(** A phase that raises ends the schedule with its exception. *)
Lemma run_phases_raised (l : list (phase * T X E unit)) w evs r w' p e :
  run_phases l w = (evs, (r, w')) →
  Raised p e ∈ evs → r = Raise e.
Proof.
  revert w evs. induction l as [|[q h] l IH]; intros w evs; cbn [run_phases].
  - intros [= <- <- <-]. by intros ?%elem_of_nil.
  - intros Hrun Hin. apply bind_inv in Hrun as [(e' & Hcall & ->)|Hrun].
    + apply call_inv in Hcall as (es & _ & ->).
      apply elem_of_cons in Hin as [?|Hin]; [done|].
      apply elem_of_app in Hin as [Hin|Hin].
      * apply list_elem_of_fmap in Hin as (? & ? & _). done.
      * apply list_elem_of_singleton in Hin. congruence.
    + destruct Hrun as (evs1 & [] & w1 & evs2 & Hcall & Hrest & ->).
      apply call_inv in Hcall as (es & _ & ->). rewrite app_nil_r in Hin.
      apply elem_of_app in Hin as [Hin|Hin]; [|by eauto].
      apply elem_of_cons in Hin as [?|Hin]; [done|].
      apply list_elem_of_fmap in Hin as (? & ? & _). done.
Qed.

(** The schedule keeps the flag when its methods do. *)
Lemma run_phases_keeps_flag (self : loc) (l : list (phase * T X E unit)) :
  Forall (λ ph, keeps_flag self ph.2) l → keeps_flag self (run_phases l).
Proof.
  induction l as [|[p h] l IH]; intros Hl w; [done|].
  apply Forall_cons in Hl as [Hh Hl]. cbn [run_phases].
  rewrite bind_unfold. pose proof (keeps_flag_call self p h Hh w) as Hc.
  destruct (Block.call p h w) as [evs [[[]|e] w1]]; [|done].
  specialize (IH Hl w1). destruct (run_phases l w1) as [evs' rw].
  cbn in *. congruence.
Qed.

Lemma schedule_keeps_flag m (self : loc) (args : list tensor) shared :
  keeps_flags m self →
  Forall (λ ph, keeps_flag self ph.2) (schedule m self args shared).
Proof.
  intros (K1 & K2 & K3 & K4 & K5). unfold schedule.
  destruct shared; cbn; repeat apply Forall_cons_2;
    try apply Forall_nil_2; cbn; auto.
Qed.

Lemma protocol_subset (ev : event E) (evs : list (event E)) :
  ev ∈ protocol evs → ev ∈ evs.
Proof.
  induction evs as [|ev' evs IH]; [done|].
  intros Hin. destruct ev'; cbn in Hin;
    try (apply elem_of_cons in Hin as [->|Hin]; [by left|]);
    right; by apply IH.
Qed.

Lemma with_variable_scope_inv {A} (scope_name : string)
    (reuse : option bool) (b : T X (event E) A) w evs r w' :
  Block.with_variable_scope scope_name reuse b w = (evs, (r, w')) →
  (∃ e g,
      variable_scope_enter scope_name reuse (tf w) = (Raise e, g) ∧
      evs = [ScopeEnter scope_name reuse] ∧ r = Raise e ∧
      w' = with_graph g w) ∨
  (∃ g bevs wb,
      variable_scope_enter scope_name reuse (tf w) = (Ok tt, g) ∧
      b (with_graph g w) = (bevs, (r, wb)) ∧
      evs = ScopeEnter scope_name reuse :: bevs ++ [ScopeExit] ∧
      w' = with_graph (variable_scope_exit (tf wb)) wb).
Proof.
  unfold Block.with_variable_scope. rewrite bind_unfold. cbn.
  unfold with_, backend.
  destruct (variable_scope_enter scope_name reuse (tf w)) as [[[]|e] g].
  - destruct (b (with_graph g w)) as [bevs [rb wb]] eqn:Hb.
    intros [= <- <- <-]. right. by exists g, bevs, wb.
  - intros [= <- <- <-]. left. by exists e, g.
Qed.

(** What a call of [setup] did: the scope could not be entered, or the
    schedule ran inside it and, if it returned, the flag was set. *)
Lemma setup_inv m (self : loc) (args : list tensor) w o evs r w' :
  keeps_flags m self →
  objs w !! self = Some o →
  Block.setup m self args w = (evs, (r, w')) →
  (∃ e g,
      variable_scope_enter (name (base o)) (is_setup (base o)) (tf w)
        = (Raise e, g) ∧
      evs = [ScopeEnter (name (base o)) (is_setup (base o))] ∧
      r = Raise e ∧ w' = with_graph g w) ∨
  (∃ g bevs rb wb ob,
      variable_scope_enter (name (base o)) (is_setup (base o)) (tf w)
        = (Ok tt, g) ∧
      run_phases
        (schedule m self args (negb (flag_truthy (is_setup (base o)))))
        (with_graph g w) = (bevs, (rb, wb)) ∧
      evs = ScopeEnter (name (base o)) (is_setup (base o))
            :: bevs ++ [ScopeExit] ∧
      objs wb !! self = Some ob ∧
      is_setup (base ob) = is_setup (base o) ∧
      match rb with
      | Ok _ =>
          r = Ok tt ∧
          w' = World (<[self := set_is_setup (Some true) ob]> (objs wb))
                     (lists wb) (variable_scope_exit (tf wb)) (glog wb)
      | Raise e =>
          r = Raise e ∧ w' = with_graph (variable_scope_exit (tf wb)) wb
      end).
Proof.
  intros K Hself. rewrite (setup_schedule _ _ _ _ _ K Hself).
  intros Hrun. apply bind_inv in Hrun as [(e & Hscope & ->)|Hrun].
  - apply with_variable_scope_inv in Hscope
      as [(e' & g & Hg & -> & [= <-] & ->)|(g & bevs & wb & Hg & Hb & -> & ->)].
    + left. by exists e, g.
    + right.
      pose proof (keeps_flag_after self _ _ _ _ _ _
        (run_phases_keeps_flag self _ (schedule_keeps_flag m self args _ K))
        (flag_of_lookup self (with_graph g w) o Hself) Hb) as Hflag.
      apply flag_of_inv in Hflag as (ob & Hob & Hfb).
      by exists g, bevs, (Raise e), wb, ob.
  - destruct Hrun as (evs1 & [] & w1 & evs2 & Hscope & Hupd & ->).
    apply with_variable_scope_inv in Hscope
      as [(e' & g & Hg & -> & [=] & ->)|(g & bevs & wb & Hg & Hb & -> & ->)].
    right.
    pose proof (keeps_flag_after self _ _ _ _ _ _
      (run_phases_keeps_flag self _ (schedule_keeps_flag m self args _ K))
      (flag_of_lookup self (with_graph g w) o Hself) Hb) as Hflag.
    apply flag_of_inv in Hflag as (ob & Hob & Hfb).
    rewrite (update_lookup self _ _ ob) in Hupd by done.
    injection Hupd as <- <- <-. rewrite app_nil_r.
    by exists g, bevs, (Ok tt), wb, ob.
Qed.

(** A [setup] that returns went through the phases in order and left
    the flag [True]. *)
Lemma setup_ok_inv m (self : loc) (args : list tensor) w o evs w' :
  keeps_flags m self →
  objs w !! self = Some o →
  Block.setup m self args w = (evs, (Ok tt, w')) →
  protocol evs = phases_in_order (name (base o)) (is_setup (base o)) ∧
  flag_of self w' = Some (Some true).
Proof.
  intros K Hself Hrun.
  apply (setup_inv _ _ _ _ _ _ _ _ K Hself) in Hrun
    as [(e & g & _ & _ & [=] & _)
       |(g & bevs & rb & wb & ob & _ & Hb & -> & Hob & _ & Hend)].
  destruct rb as [[]|e]; [|by destruct Hend]. destruct Hend as [_ ->].
  split.
  - apply run_phases_ok in Hb. cbn. rewrite protocol_app, Hb.
    unfold phases_in_order, schedule.
    by destruct (flag_truthy (is_setup (base o))).
  - unfold flag_of. cbn. by rewrite lookup_insert_eq.
Qed.

Lemma deref_inv {V} (self : loc) w (evs : list V) o w1 :
  deref self w = (evs, (Ok o, w1)) →
  objs w !! self = Some o ∧ evs = [] ∧ w1 = w.
Proof.
  unfold deref. destruct (objs w !! self) as [o'|]; [|done].
  by intros [= <- <- <-].
Qed.

Lemma update_inv {V} (self : loc) (f : instance X → instance X) w
    (evs : list V) w1 :
  update self f w = (evs, (Ok tt, w1)) →
  ∃ o, objs w !! self = Some o ∧ evs = [] ∧
       w1 = World (<[self := f o]> (objs w)) (lists w) (tf w) (glog w).
Proof.
  unfold update. destruct (objs w !! self) as [o|]; [|done].
  intros [= <- <-]. by exists o.
Qed.

(** A phase that returned was called, and its method returned. *)
Lemma call_ran (p : phase) (h : T X E unit) w evs w1 :
  Block.call p h w = (evs, (Ok tt, w1)) → ran false p h w evs w1.
Proof.
  intros Hc. apply call_inv in Hc as (es & Hh & ->). exists es.
  by rewrite app_nil_r.
Qed.

(** So was a phase called under a test of the flag, unless skipped. *)
Lemma when_call_ran (skip : bool) (p : phase) (h : T X E unit) w evs w1 :
  when (negb skip) (Block.call p h) w = (evs, (Ok tt, w1)) →
  ran skip p h w evs w1.
Proof.
  destruct skip; cbn [negb when]; [|apply call_ran].
  by intros [= <- <-].
Qed.

Lemma ran_flag (self : loc) (skip : bool) (p : phase) (h : T X E unit)
    w evs w1 :
  keeps_flag self h → ran skip p h w evs w1 →
  flag_of self w1 = flag_of self w.
Proof.
  intros K. destruct skip; cbn.
  - by intros [_ ->].
  - intros (es & Hh & _). specialize (K w). by rewrite Hh in K.
Qed.

(** What a [setup] that returned did, whatever its methods are. *)
Lemma setup_returned m (self : loc) (args : list tensor) w o evs w' :
  objs w !! self = Some o →
  Block.setup m self args w = (evs, (Ok tt, w')) →
  ∃ f1 f4, went_through m self args w o f1 f4 evs w'.
Proof.
  intros Ho Hrun. unfold Block.setup in Hrun.
  rewrite (bind_silent _ _ _ _ _ (deref_lookup self w o Ho)) in Hrun.
  apply bind_inv in Hrun
    as [(e & _ & ?)|(? & [] & wA & ? & Hscope & Hupd & ->)]; [done|].
  apply with_variable_scope_inv in Hscope
    as [(e' & g & _ & _ & [=] & _)|(g & bevs & w5 & Hg & Hb & -> & ->)].
  apply update_inv in Hupd as (o5 & Ho5 & -> & ->).
  apply bind_inv in Hb
    as [(e & _ & ?)|(evs1 & [] & w1 & ? & H1 & Hb & ->)]; [done|].
  apply call_ran in H1.
  apply bind_inv in Hb
    as [(e & _ & ?)|(? & o1 & ? & ? & Hd1 & Hb & ->)]; [done|].
  apply deref_inv in Hd1 as (Ho1 & -> & ->).
  apply bind_inv in Hb
    as [(e & _ & ?)|(evs2 & [] & w2 & ? & H2 & Hb & ->)]; [done|].
  apply when_call_ran in H2.
  apply bind_inv in Hb
    as [(e & _ & ?)|(evs3 & [] & w3 & ? & H3 & Hb & ->)]; [done|].
  apply call_ran in H3.
  apply bind_inv in Hb
    as [(e & _ & ?)|(evs4 & [] & w4 & ? & H4 & Hb & ->)]; [done|].
  apply call_ran in H4.
  apply bind_inv in Hb
    as [(e & _ & ?)|(? & o4 & ? & evs5 & Hd4 & H5 & ->)]; [done|].
  apply deref_inv in Hd4 as (Ho4 & -> & ->).
  apply when_call_ran in H5.
  exists (is_setup (base o1)), (is_setup (base o4)).
  exists g, w1, w2, w3, w4, w5, o5, evs1, evs2, evs3, evs4, evs5.
  repeat (split; [done || by apply flag_of_lookup|]).
  split; [|done]. cbn. by rewrite app_nil_r.
Qed.

(** When its methods leave the flag alone, so that the flag is [setup]'s
    own, both tests see the flag [setup] was called with. *)
Lemma went_through_flags m (self : loc) (args : list tensor) w o f1 f4
    evs w' :
  keeps_flags m self →
  objs w !! self = Some o →
  went_through m self args w o f1 f4 evs w' →
  f1 = is_setup (base o) ∧ f4 = is_setup (base o).
Proof.
  intros (K1 & K2 & K3 & K4 & K5) Ho.
  intros (g & w1 & w2 & w3 & w4 & w5 & o5 & evs1 & evs2 & evs3 & evs4
          & evs5 & _ & H1 & Hf1 & H2 & H3 & H4 & Hf4 & _).
  apply (ran_flag self) in H1; [|done].
  apply (ran_flag self) in H2; [|done].
  apply (ran_flag self) in H3; [|done].
  apply (ran_flag self) in H4; [|done].
  rewrite (flag_of_lookup self (with_graph g w) o Ho) in H1.
  split; congruence.
Qed.

(** C1. A call [setup( *inputs)] that returns went through the phases in
    this order, each on the state its predecessor left, inside the scope
    named after the block and entered with [reuse] set to the flag:
    [_pre_setup]; [_pre_setup_shared] unless the flag, read then, is
    truthy; [_setup] on the inputs; [_post_setup]; [_post_setup_shared]
    unless the flag, read then, is truthy; then it left the scope and set
    the flag to [True]. Both tests see the flag [setup] was called with
    when the methods leave the flag to [setup], as all those of
    [blocks.py] do; a later call of such an instance therefore enters the
    scope in reuse mode and skips the two shared phases. *)
Theorem setup_runs_phases_in_order m (self : loc) (args : list tensor)
    w o evs w' :
  objs w !! self = Some o →
  Block.setup m self args w = (evs, (Ok tt, w')) →
  (∃ f1 f4,
      went_through m self args w o f1 f4 evs w' ∧
      (keeps_flags m self →
       f1 = is_setup (base o) ∧ f4 = is_setup (base o))) ∧
  flag_of self w' = Some (Some true) ∧
  (keeps_flags m self →
   ∀ args2 evs2 w2,
     Block.setup m self args2 w' = (evs2, (Ok tt, w2)) →
     ∃ o', objs w' !! self = Some o' ∧
           is_setup (base o') = Some true ∧
           went_through m self args2 w' o' (Some true) (Some true)
                        evs2 w2).
Proof.
  intros Ho Hrun.
  destruct (setup_returned m self args w o evs w' Ho Hrun)
    as (f1 & f4 & Hwent).
  assert (Hflag : ∃ o', objs w' !! self = Some o' ∧
                        is_setup (base o') = Some true).
  { destruct Hwent as (g & w1 & w2 & w3 & w4 & w5 & o5 & evs1 & evs2 & evs3
                       & evs4 & evs5 & _ & _ & _ & _ & _ & _ & _ & _ & _
                       & _ & ->).
    eexists. split; [apply lookup_insert_eq|done]. }
  destruct Hflag as (o' & Ho' & Hf').
  split; [|split].
  - exists f1, f4. split; [done|]. intros K.
    by apply (went_through_flags m self args w o f1 f4 evs w').
  - by rewrite (flag_of_lookup self w' o' Ho'), Hf'.
  - intros K args2 evs2 w2 Hrun2. exists o'. split; [done|]. split; [done|].
    destruct (setup_returned m self args2 w' o' evs2 w2 Ho' Hrun2)
      as (f1' & f4' & Hwent2).
    destruct (went_through_flags m self args2 w' o' f1' f4' evs2 w2
                K Ho' Hwent2) as [-> ->].
    by rewrite Hf' in Hwent2.
Qed.

(** C9. When a phase of [setup] raises, [setup] raises that exception
    and the flag is what it was when [setup] was called; if it was
    falsy, the instance still counts as never set up and the next call
    that returns has gone through the two shared phases. The methods
    are those of any class that leaves the flag to [setup]. *)
Theorem failed_setup_leaves_flag m (self : loc) (args : list tensor)
    w o evs r w' (p : phase) (e : exn) :
  keeps_flags m self →
  objs w !! self = Some o →
  Block.setup m self args w = (evs, (r, w')) →
  Raised p e ∈ evs →
  r = Raise e ∧
  flag_of self w' = Some (is_setup (base o)) ∧
  (flag_truthy (is_setup (base o)) = false →
   ∀ args2 evs2 w2,
     Block.setup m self args2 w' = (evs2, (Ok tt, w2)) →
     Begin PreSetupShared ∈ evs2 ∧ Begin PostSetupShared ∈ evs2).
Proof.
  intros K Hself Hrun Hin.
  apply (setup_inv _ _ _ _ _ _ _ _ K Hself) in Hrun
    as [(e' & g & _ & -> & _ & _)
       |(g & bevs & rb & wb & ob & _ & Hb & -> & Hob & Hfb & Hend)].
  { apply list_elem_of_singleton in Hin. done. }
  apply elem_of_cons in Hin as [?|Hin]; [done|].
  apply elem_of_app in Hin as [Hin|Hin];
    [|apply list_elem_of_singleton in Hin; done].
  rewrite (run_phases_raised _ _ _ _ _ _ _ Hb Hin) in Hend.
  destruct Hend as [-> ->].
  assert (Hflag : flag_of self (with_graph (variable_scope_exit (tf wb)) wb)
                  = Some (is_setup (base o))).
  { rewrite <- Hfb. by apply flag_of_lookup. }
  split; [done|]. split; [done|]. intros Hfalsy args2 evs2 w2 Hrun2.
  apply flag_of_inv in Hflag as (o' & Ho' & Hf').
  destruct (setup_ok_inv _ _ _ _ _ _ _ K Ho' Hrun2) as (Hevs & _).
  rewrite Hf' in Hevs. unfold phases_in_order in Hevs.
  rewrite Hfalsy in Hevs.
  split; apply protocol_subset; rewrite Hevs; cbn;
    rewrite !elem_of_cons; auto 10.
Qed.

End Lifecycle.

(** ** What method bodies leave unchanged *)

Section Respects.
Context `{Backend} {X V : Type} (R : relation (world X)) `{!Frame R}.

Lemma respects_ret {A} (a : A) : respects R (mret a : T X V A).
Proof. intros w. apply frame_refl. Qed.

Lemma respects_raise {A} (e : exn) : respects R (raise e : T X V A).
Proof. intros w. apply frame_refl. Qed.

Lemma respects_emit (v : V) : respects R (emit v : T X V unit).
Proof. intros w. apply frame_refl. Qed.

Lemma respects_deref (self : loc) : respects R (deref self : T X V _).
Proof. intros w. unfold deref. destruct (objs w !! self); apply frame_refl. Qed.

Lemma respects_read_list (l : loc) : respects R (read_list l : T X V _).
Proof.
  intros w. unfold read_list. destruct (lists w !! l); apply frame_refl.
Qed.

Lemma respects_attr {A} (n : string) (x : option A) :
  respects R (attr n x : T X V A).
Proof. destruct x; [apply respects_ret | apply respects_raise]. Qed.

Lemma respects_log (lvl : level) (msg : message) :
  respects R (log lvl msg : T X V unit).
Proof. intros w. apply frame_log. Qed.

Lemma respects_backend {A} (f : graph → result A * graph) :
  respects R (backend f : T X V A).
Proof.
  intros w. unfold backend. destruct (f (tf w)) as [r g]. apply frame_graph.
Qed.

Lemma respects_bind {A B} (m : T X V A) (k : A → T X V B) :
  respects R m → (∀ a, respects R (k a)) → respects R (m ≫= k).
Proof.
  intros Hm Hk w. rewrite bind_unfold. specialize (Hm w).
  destruct (m w) as [evs [[a|e] w1]]; [|done].
  specialize (Hk a w1). destruct (k a w1) as [evs' [r w2]].
  by apply frame_trans with w1.
Qed.

Lemma respects_when (c : bool) (m : T X V unit) :
  respects R m → respects R (when c m).
Proof. destruct c; [done|]. intros _. apply respects_ret. Qed.

Lemma respects_for_each {A} (xs : list A) (f : A → T X V unit) :
  (∀ x, respects R (f x)) → respects R (for_each xs f).
Proof.
  intros Hf. induction xs as [|x xs IH]; [apply respects_ret|].
  cbn [for_each]. apply respects_bind; [apply Hf|by intros _].
Qed.

Lemma respects_with {A} (enter : graph → result unit * graph)
    (exit : graph → graph) (m : T X V A) :
  respects R m → respects R (with_ enter exit m).
Proof.
  intros Hm w. unfold with_, backend.
  destruct (enter (tf w)) as [[[]|e] g]; [|apply frame_graph].
  specialize (Hm (with_graph g w)).
  destruct (m (with_graph g w)) as [evs [r w2]]. cbn in *.
  apply frame_trans with (with_graph g w); [apply frame_graph|].
  apply frame_trans with w2; [done|apply frame_graph].
Qed.

End Respects.

Section LayerFrame.
Context `{Backend}.
Implicit Types (w : world layer) (o : instance layer) (b : body).

Lemma same_skeleton_refl o : same_skeleton o o.
Proof. by repeat split. Qed.

Lemma same_skeleton_trans o1 o2 o3 :
  same_skeleton o1 o2 → same_skeleton o2 o3 → same_skeleton o1 o3.
Proof.
  intros (? & ? & ? & ? & ?) (? & ? & ? & ? & ?).
  repeat split; try congruence. auto.
Qed.

Lemma option_skeleton_refl (x : option (instance layer)) :
  option_Forall2 same_skeleton x x.
Proof. destruct x; constructor. apply same_skeleton_refl. Qed.

#[global] Instance evolves_frame : Frame evolves.
Proof.
  split.
  - intros w l. apply option_skeleton_refl.
  - intros w1 w2 w3 H12 H23 l. specialize (H12 l). specialize (H23 l).
    destruct H12 as [o1 o2 S12|]; [|done].
    inversion H23 as [? o3 S23|]; subst. constructor.
    by apply same_skeleton_trans with o2.
  - intros g w l. apply option_skeleton_refl.
  - intros lvl msg w l. apply option_skeleton_refl.
Qed.

#[global] Instance same_lists_frame : Frame same_lists.
Proof. split; unfold same_lists; cbn; congruence. Qed.

(** An assignment to an attribute outside the skeleton. *)
Lemma evolves_update {V} (self : loc) (f : instance layer → instance layer) :
  (∀ o, same_skeleton o (f o)) →
  respects evolves (update self f : T layer V unit).
Proof.
  intros Hf w. unfold update.
  destruct (objs w !! self) as [o|] eqn:Ho; [|apply frame_refl].
  intros l. cbn. destruct (decide (l = self)) as [->|Hne].
  - rewrite lookup_insert_eq, Ho. constructor. apply Hf.
  - rewrite lookup_insert_ne by done. apply option_skeleton_refl.
Qed.

Lemma same_lists_update {V} (self : loc)
    (f : instance layer → instance layer) :
  respects same_lists (update self f : T layer V unit).
Proof. intros w. unfold update. by destruct (objs w !! self). Qed.

Lemma evolves_list_append {V} (l : loc) (v : variable) :
  respects evolves (list_append l v : T layer V unit).
Proof.
  intros w. unfold list_append.
  destruct (lists w !! l); [|apply frame_refl].
  intros l'. apply option_skeleton_refl.
Qed.

(** What [evolves] says of one instance. *)
Lemma evolves_lookup w w' (self : loc) o :
  evolves w w' → objs w !! self = Some o →
  ∃ o', objs w' !! self = Some o' ∧ same_skeleton o o'.
Proof.
  intros Hev Ho. specialize (Hev self). rewrite Ho in Hev.
  inversion Hev; subst. eauto.
Qed.

Lemma evolves_flag w w' (self : loc) :
  evolves w w' → flag_of self w' = flag_of self w.
Proof.
  intros Hev. specialize (Hev self). unfold flag_of.
  destruct Hev as [o o' (Hb & _)|]; [|done]. cbn. by rewrite Hb.
Qed.

Lemma evolves_keeps_flag {V A} (self : loc) (m : T layer V A) :
  respects evolves m → keeps_flag self m.
Proof. intros Hm w. apply evolves_flag, Hm. Qed.

End LayerFrame.

(** Discharge [respects] goals by following the shape of the method. *)
Ltac frame_step :=
  first
    [ match goal with |- Frame _ => typeclasses eauto end
    | match goal with |- ∀ _, _ => intro end
    | apply respects_bind
    | apply respects_ret | apply respects_raise | apply respects_emit
    | apply respects_deref | apply respects_read_list | apply respects_attr
    | apply respects_log | apply respects_backend | apply respects_when
    | apply respects_with | apply respects_for_each
    | apply same_lists_update | apply evolves_list_append
    | apply evolves_update; intros ?; by repeat split
    | match goal with
      | |- respects _ (match ?x with _ => _ end) => destruct x
      end ].
Ltac frame := repeat frame_step.

Section LayerMethods.
Context `{Backend}.
Implicit Types (w : world layer) (o : instance layer) (b : body).

(** *** The methods of [ProcessingLayer] *)



Lemma pre_setup_frame (R : relation (world layer)) `{!Frame R} (self : loc) :
  respects R (Block._pre_setup (E := acquisition) self).
Proof. unfold Block._pre_setup. frame. Qed.

Lemma pre_setup_shared_evolves (self : loc) :
  respects evolves (ProcessingLayer._pre_setup_shared self).
Proof. unfold ProcessingLayer._pre_setup_shared. frame. Qed.

Lemma pre_setup_shared_lists (self : loc) :
  respects same_lists (ProcessingLayer._pre_setup_shared self).
Proof. unfold ProcessingLayer._pre_setup_shared. frame. Qed.

Lemma post_setup_evolves (self : loc) :
  respects evolves (ProcessingLayer._post_setup self).
Proof.
  unfold ProcessingLayer._post_setup, ProcessingLayer.data,
    ProcessingLayer.loss, ProcessingLayer._data_summary.
  frame.
Qed.

Lemma post_setup_lists (self : loc) :
  respects same_lists (ProcessingLayer._post_setup self).
Proof.
  unfold ProcessingLayer._post_setup, ProcessingLayer.data,
    ProcessingLayer.loss, ProcessingLayer._data_summary.
  frame.
Qed.

Lemma post_setup_shared_evolves (self : loc) :
  respects evolves (ProcessingLayer._post_setup_shared self).
Proof.
  unfold ProcessingLayer._post_setup_shared, ProcessingLayer._var_summary.
  frame.
Qed.

Lemma post_setup_shared_lists (self : loc) :
  respects same_lists (ProcessingLayer._post_setup_shared self).
Proof.
  unfold ProcessingLayer._post_setup_shared, ProcessingLayer._var_summary.
  frame.
Qed.

Lemma get_variable_evolves (self : loc) n shape init :
  respects evolves (ProcessingLayer._get_variable self n shape init).
Proof. unfold ProcessingLayer._get_variable. frame. Qed.

Lemma run_evolves b (self : loc) :
  respects evolves (ProcessingLayer.run b self).
Proof.
  induction b as [|n shape init k IH|f k IH|t k IH|t k IH|e];
    cbn [ProcessingLayer.run]; frame; auto using get_variable_evolves.
Qed.

(** The methods [Block] itself defines do not assign [is_setup]. *)
Lemma block_keeps_flags {X E} (self : loc) :
  keeps_flags (Block.methods (X := X) (E := E)) self.
Proof.
  refine (conj _ (conj _ (conj _ (conj _ _)))); try done.
  by intros [|t args].
Qed.

(** Nor does any method of a layer. *)
Lemma layer_keeps_flags (impl : list tensor → body) (self : loc) :
  keeps_flags (ProcessingLayer.methods impl) self.
Proof.
  refine (conj _ (conj _ (conj _ (conj _ _)))); try intros args;
    apply evolves_keeps_flag; cbn.
  - apply pre_setup_frame, _.
  - apply pre_setup_shared_evolves.
  - apply run_evolves.
  - apply post_setup_evolves.
  - apply post_setup_shared_evolves.
Qed.

End LayerMethods.

Section RespectsSchedule.
Context `{Backend} {X E : Type} (R : relation (world X)) `{!Frame R}.

Lemma respects_call (p : phase) (h : T X E unit) :
  respects R h → respects R (Block.call p h).
Proof.
  intros Hh w. specialize (Hh w). unfold Block.call.
  by destruct (h w) as [es [[[]|e] w1]].
Qed.

Lemma respects_run_phases (l : list (phase * T X E unit)) :
  Forall (λ ph, respects R ph.2) l → respects R (run_phases l).
Proof.
  induction l as [|[p h] l IH]; intros Hl; [by apply respects_ret|].
  apply Forall_cons in Hl as [Hh Hl]. cbn [run_phases].
  apply respects_bind; [done|by apply respects_call|intros _; by apply IH].
Qed.

End RespectsSchedule.

(** ** Parameters across setups *)

Section Parameters.
Context `{Backend}.
Implicit Types (w : world layer) (o : instance layer) (b : body).

(** A method that leaves the lists alone tracks them. *)
Lemma tracks_same_lists (self : loc) (p : phase) h :
  p ≠ Setup →
  respects evolves h → respects same_lists h → tracks self p h.
Proof.
  intros Hp Hev Hl w o Ho. specialize (Hev w). specialize (Hl w).
  unfold same_lists in Hl. split; [done|]. split; [done|].
  split; [|done]. intros _ vs Hvs. rewrite Hl.
  replace (resolved p (h w).1) with (@nil variable) by by destruct p.
  by rewrite app_nil_r, insert_id.
Qed.

(** [_get_variable] on an instance that has completed setup. *)
Lemma get_variable_reuse_lists (self : loc) n shape init w o :
  objs w !! self = Some o →
  flag_truthy (is_setup (base o)) = true →
  lists (ProcessingLayer._get_variable self n shape init w).2.2 = lists w.
Proof.
  intros Ho Hflag. unfold ProcessingLayer._get_variable.
  rewrite bind_unfold. unfold backend at 1.
  destruct (get_variable n (Some shape) (Some init) (tf w)) as [[var|e] g];
    [|done].
  rewrite (bind_silent _ _ _ _ _ (deref_lookup self (with_graph g w) o Ho)).
  rewrite Hflag. rewrite bind_unfold.
  match goal with
  | |- context [(if ?c then ?m1 else ?m2) (with_graph g w)] =>
      set (m := if c then m1 else m2);
      assert (Hl : respects same_lists m) by (subst m; frame)
  end.
  specialize (Hl (with_graph g w)). unfold same_lists in Hl.
  destruct (m (with_graph g w)) as [evs [[var'|e] w1]]; done.
Qed.

(** [_get_variable] on an instance that has not. *)
Lemma get_variable_fresh (self : loc) n shape init w o vs es r w' :
  objs w !! self = Some o →
  flag_truthy (is_setup (base o)) = false →
  lists w !! var_list (ext o) = Some vs →
  ProcessingLayer._get_variable self n shape init w = (es, (r, w')) →
  lists w' = <[var_list (ext o) := vs ++ handles es]> (lists w).
Proof.
  intros Ho Hflag Hvs. unfold ProcessingLayer._get_variable.
  rewrite bind_unfold. unfold backend at 1.
  destruct (get_variable n (Some shape) (Some init) (tf w)) as [[var|e] g].
  - rewrite (bind_silent _ _ _ _ _ (deref_lookup self (with_graph g w) o Ho)).
    rewrite Hflag. unfold_monad. cbn. rewrite Hvs. by intros [= <- <- <-].
  - intros [= <- <- <-]. cbn. by rewrite app_nil_r, insert_id.
Qed.

Lemma backend_inv {V A} (f : graph → result A * graph) w
    (evs : list V) r w' :
  backend f w = (evs, (r, w')) →
  ∃ g, f (tf w) = (r, g) ∧ evs = [] ∧ w' = with_graph g w.
Proof.
  unfold backend. destruct (f (tf w)) as [r' g]. intros [= <- <- <-]. eauto.
Qed.

(** How the body of a [_setup] touches the lists. *)
Lemma run_lists b (self : loc) w o es r w' :
  objs w !! self = Some o →
  ProcessingLayer.run b self w = (es, (r, w')) →
  (flag_truthy (is_setup (base o)) = true → lists w' = lists w) ∧
  (flag_truthy (is_setup (base o)) = false →
   ∀ vs, lists w !! var_list (ext o) = Some vs →
         lists w' = <[var_list (ext o) := vs ++ handles es]> (lists w)).
Proof.
  assert (Hnil : ∀ w o vs, lists w !! var_list (ext o) = Some vs →
            lists w = <[var_list (ext o) := vs ++ handles []]> (lists w)).
  { intros ? ? vs Hvs. cbn. by rewrite app_nil_r, insert_id. }
  revert w o es.
  induction b as [|n shape init k IH|f k IH|t k IH|t k IH|e];
    intros w o es Ho; cbn [ProcessingLayer.run].
  - intros [= <- <- <-]. eauto.
  - intros Hrun.
    apply bind_inv in Hrun
      as [(e & Hget & ->)|(es1 & var & w1 & es2 & Hget & Hrun & ->)].
    + split.
      * intros Hflag.
        pose proof (get_variable_reuse_lists self n shape init w o Ho Hflag)
          as Hre. by rewrite Hget in Hre.
      * intros Hflag vs Hvs. eapply get_variable_fresh; eauto.
    + pose proof (get_variable_evolves self n shape init w) as Hev.
      rewrite Hget in Hev. cbn in Hev.
      destruct (evolves_lookup _ _ _ _ Hev Ho) as (o1 & Ho1 & Hb & Hvl & _).
      destruct (IH var w1 o1 es2 Ho1 Hrun) as [IHre IHfr].
      rewrite Hb in IHre, IHfr. rewrite Hvl in IHfr. split.
      * intros Hflag. rewrite IHre by done.
        pose proof (get_variable_reuse_lists self n shape init w o Ho Hflag)
          as Hre. by rewrite Hget in Hre.
      * intros Hflag vs Hvs.
        pose proof (get_variable_fresh self n shape init w o vs _ _ _
                      Ho Hflag Hvs Hget) as Hfr.
        rewrite (IHfr Hflag (vs ++ handles es1)), Hfr.
        -- unfold handles. by rewrite insert_insert_eq, map_app, app_assoc.
        -- rewrite Hfr. apply lookup_insert_eq.
  - intros Hrun.
    apply bind_inv in Hrun
      as [(e & Hf & ->)|(es1 & t & w1 & es2 & Hf & Hrun & ->)];
      apply backend_inv in Hf as (g & _ & -> & ->);
      [split; [done|intros _ vs Hvs; by apply (Hnil w)]|].
    by apply (IH t (with_graph g w) o es2 Ho Hrun).
  - rewrite (bind_silent _ _ _ _ _ (update_lookup self _ w o Ho)).
    intros Hrun. eapply IH in Hrun; [|apply lookup_insert_eq]. done.
  - rewrite (bind_silent _ _ _ _ _ (update_lookup self _ w o Ho)).
    intros Hrun. eapply IH in Hrun; [|apply lookup_insert_eq]. done.
  - intros [= <- <- <-]. eauto.
Qed.

(** On an instance that has not completed setup, [_get_variable]
    returns the handle it resolved. *)
Lemma get_variable_raw (self : loc) n shape init w o es r w' :
  objs w !! self = Some o →
  flag_truthy (is_setup (base o)) = false →
  ProcessingLayer._get_variable self n shape init w = (es, (r, w')) →
  Forall raw es.
Proof.
  intros Ho Hflag. unfold ProcessingLayer._get_variable.
  rewrite bind_unfold. unfold backend at 1.
  destruct (get_variable n (Some shape) (Some init) (tf w)) as [[var|e] g].
  - rewrite (bind_silent _ _ _ _ _ (deref_lookup self (with_graph g w) o Ho)).
    rewrite Hflag. unfold_monad. cbn.
    destruct (lists w !! var_list (ext o)); intros [= <- <- <-]; cbn;
      repeat constructor.
  - intros [= <- <- <-]. constructor.
Qed.

Lemma run_raw b (self : loc) w o es r w' :
  objs w !! self = Some o →
  flag_truthy (is_setup (base o)) = false →
  ProcessingLayer.run b self w = (es, (r, w')) →
  Forall raw es.
Proof.
  revert w o es.
  induction b as [|n shape init k IH|f k IH|t k IH|t k IH|e];
    intros w o es Ho Hflag; cbn [ProcessingLayer.run].
  - intros [= <- <- <-]. constructor.
  - intros Hrun.
    apply bind_inv in Hrun
      as [(e & Hget & ->)|(es1 & var & w1 & es2 & Hget & Hrun & ->)].
    + exact (get_variable_raw self n shape init w o _ _ _ Ho Hflag Hget).
    + pose proof (get_variable_evolves self n shape init w) as Hev.
      rewrite Hget in Hev. cbn in Hev.
      destruct (evolves_lookup _ _ _ _ Hev Ho) as (o1 & Ho1 & Hb & _).
      apply Forall_app. split.
      { exact (get_variable_raw self n shape init w o _ _ _ Ho Hflag Hget). }
      refine (IH var w1 o1 es2 Ho1 _ Hrun). by rewrite Hb.
  - intros Hrun.
    apply bind_inv in Hrun
      as [(e & Hf & ->)|(es1 & t & w1 & es2 & Hf & Hrun & ->)];
      apply backend_inv in Hf as (g & _ & -> & ->); [constructor|].
    by apply (IH t (with_graph g w) o es2 Ho Hflag Hrun).
  - rewrite (bind_silent _ _ _ _ _ (update_lookup self _ w o Ho)).
    intros Hrun. eapply IH in Hrun; [done|apply lookup_insert_eq|done].
  - rewrite (bind_silent _ _ _ _ _ (update_lookup self _ w o Ho)).
    intros Hrun. eapply IH in Hrun; [done|apply lookup_insert_eq|done].
  - intros [= <- <- <-]. constructor.
Qed.

(** The [_setup] of a concrete layer tracks the lists. *)
Lemma run_tracks b (self : loc) :
  tracks self Setup (ProcessingLayer.run b self).
Proof.
  intros w o Ho. split; [apply run_evolves|].
  destruct (ProcessingLayer.run b self w) as [es [r w']] eqn:Hrun.
  destruct (run_lists b self w o es r w' Ho Hrun) as [Hre Hfr].
  repeat split; [done..|]. intros Hflag _. by eapply run_raw.
Qed.

(** So does every method of a layer. *)
Lemma layer_schedule_tracks (impl : list tensor → body) (self : loc)
    (args : list tensor) (shared : bool) :
  Forall (λ ph, tracks self ph.1 ph.2)
         (schedule (ProcessingLayer.methods impl) self args shared).
Proof.
  unfold schedule.
  destruct shared; cbn; repeat apply Forall_cons_2;
    try apply Forall_nil_2; cbn;
    try apply run_tracks; apply tracks_same_lists; try done.
  all: auto using pre_setup_shared_evolves, pre_setup_shared_lists,
         post_setup_evolves, post_setup_lists, post_setup_shared_evolves,
         post_setup_shared_lists.
  all: apply pre_setup_frame, _.
Qed.

Lemma acquired_app (l1 l2 : list (event acquisition)) :
  acquired (l1 ++ l2) = acquired l1 ++ acquired l2.
Proof.
  induction l1 as [|ev l1 IH]; [done|].
  destruct ev as [| | |[] []|]; cbn; by rewrite ?IH.
Qed.

Lemma acquired_during (p : phase) (es : list acquisition) :
  acquired (map (During p) es) = resolved p es.
Proof.
  induction es as [|[] es IH]; [by destruct p|].
  destruct p; cbn in *; by rewrite ?IH.
Qed.

Lemma acquired_call (p : phase) (es : list acquisition)
    (r : result unit) :
  acquired (Begin p :: map (During p) es
            ++ match r with Raise e => [Raised p e] | Ok _ => [] end)
  = resolved p es.
Proof.
  cbn. rewrite acquired_app, acquired_during.
  destruct r; cbn; by rewrite app_nil_r.
Qed.

Lemma raw_setup_during (p : phase) (es : list acquisition) :
  (p = Setup → Forall raw es) → Forall raw_setup (map (During p) es).
Proof.
  intros Hes. induction es as [|a es IH]; [constructor|].
  cbn. constructor.
  - destruct p; try done. specialize (Hes eq_refl). by inversion Hes.
  - apply IH. intros Hp. specialize (Hes Hp). by inversion Hes.
Qed.

(** What a schedule of tracking methods does to the lists. *)
Lemma run_phases_lists (self : loc)
    (l : list (phase * T layer acquisition unit)) w o bevs rb wb :
  Forall (λ ph, tracks self ph.1 ph.2) l →
  objs w !! self = Some o →
  run_phases l w = (bevs, (rb, wb)) →
  evolves w wb ∧
  (flag_truthy (is_setup (base o)) = true → lists wb = lists w) ∧
  (flag_truthy (is_setup (base o)) = false →
   Forall raw_setup bevs ∧
   ∀ vs, lists w !! var_list (ext o) = Some vs →
         lists wb = <[var_list (ext o) := vs ++ acquired bevs]> (lists w)).
Proof.
  intros Hl. revert w o bevs.
  induction l as [|[p h] l IH]; intros w o bevs Ho; cbn [run_phases].
  - intros [= <- <- <-]. split; [apply frame_refl|]. split; [done|].
    intros _. split; [constructor|]. intros vs Hvs. cbn.
    by rewrite app_nil_r, insert_id.
  - apply Forall_cons in Hl as [Hh Hl]. specialize (IH Hl).
    specialize (Hh w o Ho). cbn in Hh.
    destruct Hh as (Hev & Hre & Hfr & Hraw).
    pose proof (raw_setup_during p) as Hdur.
    intros Hrun.
    apply bind_inv in Hrun
      as [(e & Hcall & ->)|(evs1 & [] & w1 & evs2 & Hcall & Hrun & ->)];
      apply call_inv in Hcall as (es & Hh & ->); rewrite Hh in *;
      cbn in Hev, Hre, Hfr, Hraw.
    + split; [done|]. split; [done|]. intros Hflag. split.
      * constructor; [done|]. apply Forall_app. split; [|by repeat constructor].
        auto.
      * intros vs Hvs. rewrite (acquired_call p es (Raise e)). auto.
    + destruct (evolves_lookup _ _ _ _ Hev Ho) as (o1 & Ho1 & Hb & Hvl & _).
      destruct (IH w1 o1 evs2 Ho1 Hrun) as (Hev' & Hre' & Hfr').
      rewrite Hb in Hre', Hfr'. rewrite Hvl in Hfr'.
      split; [by apply frame_trans with w1|]. split.
      * intros Hflag. rewrite Hre', Hre; done.
      * intros Hflag. destruct (Hfr' Hflag) as [Hraw' Hlists']. split.
        -- rewrite app_nil_r. constructor; [done|]. apply Forall_app.
           split; [|done]. auto.
        -- intros vs Hvs. rewrite acquired_app, (acquired_call p es (Ok tt)).
           rewrite (Hlists' (vs ++ resolved p es)), (Hfr Hflag vs Hvs).
           ++ by rewrite insert_insert_eq, app_assoc.
           ++ rewrite (Hfr Hflag vs Hvs). apply lookup_insert_eq.
Qed.

End Parameters.

(** ** Setting up a layer and its validation copy *)

Section LayerSetup.
Context `{Backend}.
Implicit Types (w : world layer) (o : instance layer) (b : body).

Lemma acquired_scope (scope_name : string) (reuse : option bool)
    (bevs : list (event acquisition)) :
  acquired (ScopeEnter scope_name reuse :: bevs ++ [ScopeExit])
  = acquired bevs.
Proof. cbn. rewrite acquired_app. cbn. by rewrite app_nil_r. Qed.

(** What a [setup] of a layer, however it ends, does to the instances
    and to the lists. *)
Lemma layer_setup_effect (impl : list tensor → body) (self : loc)
    (args : list tensor) w o evs r w' :
  objs w !! self = Some o →
  ProcessingLayer.setup impl self args w = (evs, (r, w')) →
  (∃ o', objs w' !! self = Some o' ∧
         var_list (ext o') = var_list (ext o)) ∧
  (∀ l, l ≠ self →
        option_Forall2 same_skeleton (objs w !! l) (objs w' !! l)) ∧
  (flag_truthy (is_setup (base o)) = true → lists w' = lists w) ∧
  (flag_truthy (is_setup (base o)) = false →
   Forall raw_setup evs ∧
   ∀ vs, lists w !! var_list (ext o) = Some vs →
         lists w' = <[var_list (ext o) := vs ++ acquired evs]> (lists w)).
Proof.
  intros Ho Hrun. unfold ProcessingLayer.setup in Hrun.
  apply (setup_inv _ _ _ _ _ _ _ _ (layer_keeps_flags impl self) Ho) in Hrun
    as [(e & g & _ & -> & _ & ->)
       |(g & bevs & rb & wb & ob & _ & Hb & -> & Hob & _ & Hend)].
  { split; [by eauto|]. split; [intros; apply option_skeleton_refl|].
    split; [done|]. intros _. split; [by repeat constructor|].
    intros vs Hvs. cbn. by rewrite app_nil_r, insert_id. }
  apply (run_phases_lists self _ _ o) in Hb
    as (Hev & Hre & Hfr); [|apply layer_schedule_tracks|done].
  destruct (evolves_lookup _ _ _ _ Hev Ho) as (ob' & Hob' & _ & Hvl & _).
  assert (ob' = ob) as -> by congruence.
  assert (Hobjs : ∀ l, l ≠ self → objs w' !! l = objs wb !! l).
  { intros l Hl. destruct rb as [[]|e]; destruct Hend as [_ ->]; cbn;
      [by rewrite lookup_insert_ne|done]. }
  assert (Hlists : lists w' = lists wb)
    by (destruct rb as [[]|e]; by destruct Hend as [_ ->]).
  split.
  { destruct rb as [[]|e]; destruct Hend as [_ ->]; cbn.
    - rewrite lookup_insert_eq. eauto.
    - eauto. }
  split; [intros l Hl; rewrite (Hobjs l Hl); apply Hev|].
  rewrite Hlists. split; [done|]. intros Hflag.
  destruct (Hfr Hflag) as [Hraw Hl]. split.
  - constructor; [done|]. apply Forall_app. split; [done|].
    by repeat constructor.
  - intros vs Hvs. rewrite acquired_scope. by apply Hl.
Qed.

(** A [setup] that returns leaves the flag [True]. *)
Lemma layer_setup_ok_flag (impl : list tensor → body) (self : loc)
    (args : list tensor) w o evs w' :
  objs w !! self = Some o →
  ProcessingLayer.setup impl self args w = (evs, (Ok tt, w')) →
  ∃ o', objs w' !! self = Some o' ∧ is_setup (base o') = Some true.
Proof.
  intros Ho Hrun. unfold ProcessingLayer.setup in Hrun.
  apply (setup_inv _ _ _ _ _ _ _ _ (layer_keeps_flags impl self) Ho) in Hrun
    as [(e & g & _ & _ & [=] & _)
       |(g & bevs & rb & wb & ob & _ & _ & _ & _ & _ & Hend)].
  destruct rb as [[]|e]; destruct Hend as [? ->]; [|done].
  cbn. rewrite lookup_insert_eq. eauto.
Qed.

(** C3. On a layer whose flag is truthy, [_get_variable] changes no list
    and a [setup], whatever its inputs and however it ends, leaves
    [var_list] referring to the same list, and every list as it was (the
    same entries, so the same length); a layer is in that state once a
    [setup] of it has returned. *)
Theorem setup_again_keeps_var_list (impl : list tensor → body) (self : loc)
    w o :
  objs w !! self = Some o →
  (flag_truthy (is_setup (base o)) = true →
     (∀ n shape init,
        lists (ProcessingLayer._get_variable self n shape init w).2.2
        = lists w) ∧
     (∀ args evs r w',
        ProcessingLayer.setup impl self args w = (evs, (r, w')) →
        lists w' = lists w ∧
        ∃ o', objs w' !! self = Some o' ∧
              var_list (ext o') = var_list (ext o))) ∧
  (∀ args1 evs1 w1 args2 evs2 r w2,
     ProcessingLayer.setup impl self args1 w = (evs1, (Ok tt, w1)) →
     ProcessingLayer.setup impl self args2 w1 = (evs2, (r, w2)) →
     lists w2 = lists w1 ∧
     ∃ o1 o2, objs w1 !! self = Some o1 ∧ objs w2 !! self = Some o2 ∧
              var_list (ext o2) = var_list (ext o1)).
Proof.
  intros Ho.
  assert (Hagain : ∀ w o args evs r w',
    objs w !! self = Some o → flag_truthy (is_setup (base o)) = true →
    ProcessingLayer.setup impl self args w = (evs, (r, w')) →
    lists w' = lists w ∧
    ∃ o', objs w' !! self = Some o' ∧ var_list (ext o') = var_list (ext o)).
  { clear. intros w o args evs r w' Ho Hflag Hrun.
    destruct (layer_setup_effect impl self args w o evs r w' Ho Hrun)
      as ((o' & Ho' & Hvl) & _ & Hre & _). eauto. }
  split.
  - intros Hflag. split; [|by eauto].
    intros n shape init. by apply (get_variable_reuse_lists self _ _ _ w o).
  - intros args1 evs1 w1 args2 evs2 r w2 Hrun1 Hrun2.
    destruct (layer_setup_ok_flag impl self args1 w o evs1 w1 Ho Hrun1)
      as (o1 & Ho1 & Hflag).
    destruct (Hagain w1 o1 args2 evs2 r w2 Ho1) as (Hl & o2 & Ho2 & Hvl);
      [by rewrite Hflag|done|]. eauto 10.
Qed.

(** On an instance that has not completed setup, [_get_variable] asks
    the backend, appends the handle and returns it. *)
Lemma get_variable_fresh_run (self : loc) n shape init w o vs :
  objs w !! self = Some o →
  flag_truthy (is_setup (base o)) = false →
  lists w !! var_list (ext o) = Some vs →
  ProcessingLayer._get_variable self n shape init w
  = match get_variable n (Some shape) (Some init) (tf w) with
    | (Ok var, g) =>
        ([Got n var var],
         (Ok var, World (objs w)
                        (<[var_list (ext o) := vs ++ [var]]> (lists w))
                        g (glog w)))
    | (Raise e, g) => ([], (Raise e, with_graph g w))
    end.
Proof.
  intros Ho Hflag Hvs. unfold ProcessingLayer._get_variable.
  rewrite bind_unfold. unfold backend at 1.
  destruct (get_variable n (Some shape) (Some init) (tf w)) as [[var|e] g];
    [|done].
  rewrite (bind_silent _ _ _ _ _ (deref_lookup self (with_graph g w) o Ho)).
  rewrite Hflag. unfold_monad. cbn. by rewrite Hvs.
Qed.

(** The body of a [_setup] run on such an instance appends the handles
    to register, whether it returns or raises. *)
Lemma run_registers b (self : loc) w o vs es r w' :
  objs w !! self = Some o →
  flag_truthy (is_setup (base o)) = false →
  lists w !! var_list (ext o) = Some vs →
  ProcessingLayer.run b self w = (es, (r, w')) →
  lists w'
  = <[var_list (ext o) := vs ++ handles_to_register b (tf w)]> (lists w).
Proof.
  assert (Hnil : ∀ w o vs, lists w !! var_list (ext o) = Some vs →
            lists w = <[var_list (ext o) := vs ++ []]> (lists w)).
  { intros ? ? ? Hvs. by rewrite app_nil_r, insert_id. }
  revert w o vs es r w'.
  induction b as [|n shape init k IH|f k IH|t k IH|t k IH|e];
    intros w o vs es r w' Ho Hflag Hvs;
    cbn [ProcessingLayer.run handles_to_register].
  - intros [= <- <- <-]. by apply Hnil.
  - rewrite bind_unfold,
      (get_variable_fresh_run self n shape init w o vs Ho Hflag Hvs).
    destruct (get_variable n (Some shape) (Some init) (tf w))
      as [[var|e] g].
    + destruct (ProcessingLayer.run (k var) self _) as [es2 [r2 w2]] eqn:Hk.
      intros [= <- <- <-].
      eapply (IH var _ o (vs ++ [var])) in Hk;
        [|done|done|cbn; apply lookup_insert_eq].
      rewrite Hk. cbn. by rewrite insert_insert_eq, <- app_assoc.
    + intros [= <- <- <-]. cbn. by apply Hnil.
  - intros Hrun.
    apply bind_inv in Hrun
      as [(e & Hf & ->)|(es1 & t & w1 & es2 & Hf & Hrun & ->)];
      apply backend_inv in Hf as (g & Hg & -> & ->); rewrite Hg.
    + cbn. by apply Hnil.
    + by apply (IH t (with_graph g w) o vs es2 _ _ Ho Hflag Hvs Hrun).
  - rewrite (bind_silent _ _ _ _ _ (update_lookup self _ w o Ho)).
    intros Hrun.
    eapply (IH _ (set_ext (ProcessingLayer.set_data (Some t)) o) vs)
      in Hrun; [done|apply lookup_insert_eq|done|done].
  - rewrite (bind_silent _ _ _ _ _ (update_lookup self _ w o Ho)).
    intros Hrun.
    eapply (IH _ (set_ext (ProcessingLayer.set_loss (Some t)) o) vs)
      in Hrun; [done|apply lookup_insert_eq|done|done].
  - intros [= <- <- <-]. by apply Hnil.
Qed.

(** The phases of a first [setup] of a layer that returned. *)
Lemma layer_first_setup (impl : list tensor → body) (self : loc)
    (args : list tensor) w o evs w' :
  objs w !! self = Some o →
  flag_truthy (is_setup (base o)) = false →
  ProcessingLayer.setup impl self args w = (evs, (Ok tt, w')) →
  ∃ g es1 wp es2 ws es3 wq es4 wr o5,
    variable_scope_enter (name (base o)) (is_setup (base o)) (tf w)
      = (Ok tt, g) ∧
    ProcessingLayer._pre_setup_shared self (with_graph g w)
      = (es1, (Ok tt, wp)) ∧
    ProcessingLayer.run (impl args) self wp = (es2, (Ok tt, ws)) ∧
    ProcessingLayer._post_setup self ws = (es3, (Ok tt, wq)) ∧
    ProcessingLayer._post_setup_shared self wq = (es4, (Ok tt, wr)) ∧
    objs wr !! self = Some o5 ∧
    w' = World (<[self := set_is_setup (Some true) o5]> (objs wr))
               (lists wr) (variable_scope_exit (tf wr)) (glog wr).
Proof.
  intros Ho Hflag Hrun. unfold ProcessingLayer.setup in Hrun.
  destruct (setup_returned _ _ _ _ _ _ _ Ho Hrun) as (f1 & f4 & Hwent).
  destruct (went_through_flags _ _ _ _ _ _ _ _ _
              (layer_keeps_flags impl self) Ho Hwent) as [-> ->].
  destruct Hwent as (g & w1 & wp & ws & wq & wr & o5 & evs1 & evs2 & evs3
                     & evs4 & evs5 & Hg & H1 & _ & H2 & H3 & H4 & _ & H5
                     & Ho5 & _ & ->).
  rewrite Hflag in H2, H5. cbn in H1, H2, H3, H4, H5.
  destruct H1 as (? & [= _ <-] & _). destruct H2 as (es1 & H2 & _).
  destruct H3 as (es2 & H3 & _). destruct H4 as (es3 & H4 & _).
  destruct H5 as (es4 & H5 & _).
  by exists g, es1, wp, es2, ws, es3, wq, es4, wr, o5.
Qed.

(** The phases of a [setup] of a layer in reuse mode that returned. *)
Lemma layer_reuse_setup (impl : list tensor → body) (self : loc)
    (args : list tensor) w o evs w' :
  objs w !! self = Some o →
  flag_truthy (is_setup (base o)) = true →
  ProcessingLayer.setup impl self args w = (evs, (Ok tt, w')) →
  ∃ g es2 ws es3 wq o5,
    variable_scope_enter (name (base o)) (is_setup (base o)) (tf w)
      = (Ok tt, g) ∧
    ProcessingLayer.run (impl args) self (with_graph g w)
      = (es2, (Ok tt, ws)) ∧
    ProcessingLayer._post_setup self ws = (es3, (Ok tt, wq)) ∧
    objs wq !! self = Some o5 ∧
    w' = World (<[self := set_is_setup (Some true) o5]> (objs wq))
               (lists wq) (variable_scope_exit (tf wq)) (glog wq).
Proof.
  intros Ho Hflag Hrun. unfold ProcessingLayer.setup in Hrun.
  destruct (setup_returned _ _ _ _ _ _ _ Ho Hrun) as (f1 & f4 & Hwent).
  destruct (went_through_flags _ _ _ _ _ _ _ _ _
              (layer_keeps_flags impl self) Ho Hwent) as [-> ->].
  destruct Hwent as (g & w1 & wp & ws & wq & wr & o5 & evs1 & evs2 & evs3
                     & evs4 & evs5 & Hg & H1 & _ & H2 & H3 & H4 & _ & H5
                     & Ho5 & _ & ->).
  rewrite Hflag in H2, H5. cbn in H1, H2, H3, H4, H5.
  destruct H1 as (? & [= _ <-] & _). destruct H2 as [_ ->].
  destruct H3 as (es2 & H3 & _). destruct H4 as (es3 & H4 & _).
  destruct H5 as [_ ->].
  by exists g, es2, ws, es3, wq, o5.
Qed.


End LayerSetup.

(** ** The output of a layer *)

Section Output.
Context `{Backend}.
Implicit Types (w : world layer) (o : instance layer) (b : body).

Lemma data_lookup (self : loc) w o :
  objs w !! self = Some o →
  ProcessingLayer.data self w = ([], (Ok (_data (ext o)), w)).
Proof.
  intros Ho. unfold ProcessingLayer.data.
  by rewrite (bind_silent _ _ _ _ _ (deref_lookup self w o Ho)).
Qed.

Lemma loss_lookup (self : loc) w o :
  objs w !! self = Some o →
  ProcessingLayer.loss self w = ([], (Ok (_loss (ext o)), w)).
Proof.
  intros Ho. unfold ProcessingLayer.loss.
  by rewrite (bind_silent _ _ _ _ _ (deref_lookup self w o Ho)).
Qed.

(** An output once stored stays. *)
Lemma evolves_data w w' (self : loc) o :
  evolves w w' → objs w !! self = Some o → is_Some (_data (ext o)) →
  ∃ o', objs w' !! self = Some o' ∧ is_Some (_data (ext o')).
Proof.
  intros Hev Ho Hd.
  destruct (evolves_lookup _ _ _ _ Hev Ho) as (o' & Ho' & _ & _ & _ & _ & Hk).
  eauto.
Qed.

(** A body that stores its output has stored it when it returns. *)
Lemma run_stores_data b (self : loc) (stored : bool) w o es w' :
  stores_data stored b →
  objs w !! self = Some o →
  (stored = true → is_Some (_data (ext o))) →
  ProcessingLayer.run b self w = (es, (Ok tt, w')) →
  ∃ o', objs w' !! self = Some o' ∧ is_Some (_data (ext o')).
Proof.
  revert stored w o es.
  induction b as [|n shape init k IH|f k IH|t k IH|t k IH|e];
    intros stored w o es Hb Ho Hd; cbn [ProcessingLayer.run] in *.
  - intros [= <- <-]. eauto.
  - intros Hrun.
    apply bind_inv in Hrun
      as [(e & _ & ?)|(es1 & var & w1 & es2 & Hget & Hrun & ->)]; [done|].
    pose proof (get_variable_evolves self n shape init w) as Hev.
    rewrite Hget in Hev. cbn in Hev.
    destruct (evolves_lookup _ _ _ _ Hev Ho)
      as (o1 & Ho1 & _ & _ & _ & _ & Hk).
    apply (IH var stored w1 o1 es2); auto.
  - intros Hrun.
    apply bind_inv in Hrun
      as [(e & _ & ?)|(es1 & t & w1 & es2 & Hf & Hrun & ->)]; [done|].
    apply backend_inv in Hf as (g & _ & -> & ->).
    by apply (IH t stored (with_graph g w) o es2).
  - rewrite (bind_silent _ _ _ _ _ (update_lookup self _ w o Ho)).
    intros Hrun.
    eapply (IH true) in Hrun; [done|done|apply lookup_insert_eq|].
    intros _. cbn. eauto.
  - rewrite (bind_silent _ _ _ _ _ (update_lookup self _ w o Ho)).
    intros Hrun.
    eapply (IH stored) in Hrun; [done|done|apply lookup_insert_eq|].
    cbn. done.
  - discriminate.
Qed.

(** In a schedule that returns, what the [_setup] phase stored is still
    there at the end. *)
Lemma run_phases_data (self : loc)
    (l1 l2 : list (phase * T layer acquisition unit))
    (h : T layer acquisition unit) w o bevs wb :
  (∀ w o es w',
     objs w !! self = Some o → h w = (es, (Ok tt, w')) →
     ∃ o', objs w' !! self = Some o' ∧ is_Some (_data (ext o'))) →
  Forall (λ ph, respects evolves ph.2) l1 →
  Forall (λ ph, respects evolves ph.2) l2 →
  objs w !! self = Some o →
  run_phases (l1 ++ (Setup, h) :: l2) w = (bevs, (Ok tt, wb)) →
  ∃ o', objs wb !! self = Some o' ∧ is_Some (_data (ext o')).
Proof.
  intros Hh Hl1 Hl2. revert w o bevs.
  induction l1 as [|[p g] l1 IH]; intros w o bevs Ho Hrun;
    cbn [app run_phases] in Hrun;
    apply bind_inv in Hrun
      as [(e & _ & ?)|(evs1 & [] & w1 & evs2 & Hcall & Hrun & ->)];
    try done; apply call_inv in Hcall as (es & Hcall & _).
  - destruct (Hh w o es w1 Ho Hcall) as (o1 & Ho1 & Hd).
    pose proof (respects_run_phases evolves l2 Hl2 w1) as Hev.
    rewrite Hrun in Hev. by apply (evolves_data w1 wb self o1).
  - apply Forall_cons in Hl1 as [Hg Hl1].
    specialize (Hg w). cbn in Hg. rewrite Hcall in Hg. cbn in Hg.
    destruct (evolves_lookup _ _ _ _ Hg Ho) as (o1 & Ho1 & _).
    by apply (IH Hl1 w1 o1 evs2).
Qed.

(** C5, as amended. A layer just constructed has no output: [data] (and
    [loss]) return [None] and do not raise. After a [setup] that returns,
    [data] returns an output, provided the [_setup] of the layer's class
    stores one in [_data] whenever it returns. *)
Theorem data_absent_until_stored {V} (impl : list tensor → body)
    (cls : string) (decay : option num) (do_summary : bool)
    (name : option string) (bag : option (gmap string string))
    (w0 : world layer) evs0 (self : loc) w :
  ProcessingLayer.__init__ (V := V) cls decay do_summary name bag w0
    = (evs0, (Ok self, w)) →
  ProcessingLayer.data self w = ([], (Ok None, w)) ∧
  ProcessingLayer.loss self w = ([], (Ok None, w)) ∧
  ∀ (l : loc) w1 o args evs w2,
    objs w1 !! l = Some o →
    (∀ args, stores_data false (impl args)) →
    ProcessingLayer.setup impl l args w1 = (evs, (Ok tt, w2)) →
    ∃ t, ProcessingLayer.data l w2 = ([], (Ok (Some t), w2)).
Proof.
  intros Hinit. apply init_inv in Hinit as (n & _ & _ & _ & _ & _ & ->).
  split; [rewrite (data_lookup self _ _ (lookup_insert_eq _ _ _)); done|].
  split; [rewrite (loss_lookup self _ _ (lookup_insert_eq _ _ _)); done|].
  clear. intros self w o args evs w' Ho Himpl Hrun.
  unfold ProcessingLayer.setup in Hrun.
  apply (setup_inv _ _ _ _ _ _ _ _ (layer_keeps_flags impl self) Ho) in Hrun
    as [(e & g & _ & _ & [=] & _)
       |(g & bevs & rb & wb & ob & _ & Hb & _ & Hob & _ & Hend)].
  destruct rb as [[]|e]; destruct Hend as [? ->]; [|done].
  assert (Hdata : ∃ o', objs wb !! self = Some o' ∧
                        is_Some (_data (ext o'))).
  { assert (Hpre : respects evolves
                     (Block._pre_setup (E := acquisition) self))
      by apply pre_setup_frame, _.
    pose proof (pre_setup_shared_evolves self).
    pose proof (post_setup_evolves self).
    pose proof (post_setup_shared_evolves self).
    assert (Hsetup : ∀ w o es w', objs w !! self = Some o →
              ProcessingLayer.run (impl args) self w = (es, (Ok tt, w')) →
              ∃ o', objs w' !! self = Some o' ∧ is_Some (_data (ext o'))).
    { intros w1 o1 es w2 Ho1 Hrun.
      by apply (run_stores_data (impl args) self false w1 o1 es w2). }
    unfold schedule in Hb. cbn in Hb.
    destruct (negb (flag_truthy (is_setup (base o)))); cbn in Hb.
    - apply (run_phases_data self
               [(PreSetup, Block._pre_setup self);
                (PreSetupShared, ProcessingLayer._pre_setup_shared self)]
               [(PostSetup, ProcessingLayer._post_setup self);
                (PostSetupShared, ProcessingLayer._post_setup_shared self)]
               _ _ o _ _ Hsetup) in Hb;
        [done|repeat constructor; done..|done].
    - apply (run_phases_data self
               [(PreSetup, Block._pre_setup self)]
               [(PostSetup, ProcessingLayer._post_setup self)]
               _ _ o _ _ Hsetup) in Hb;
        [done|repeat constructor; done..|done]. }
  destruct Hdata as (o' & Ho' & t & Ht).
  assert (o' = ob) as -> by congruence.
  exists t. erewrite data_lookup; [|cbn; apply lookup_insert_eq].
  cbn. by rewrite Ht.
Qed.

End Output.

(** ** The exponential-decay policy *)

Section ExponentialDecay.
Local Open Scope Q_scope.

(** A power of a rate in [(0, 1]] is at most 1. *)
Lemma Qpower_le_1 (d : Q) (k : Z) :
  0 < d → d <= 1 → (0 <= k)%Z → d ^ k <= 1.
Proof.
  intros Hpos Hle Hk.
  assert (Hdk : 0 < d ^ k) by by apply Qpower_0_lt.
  assert (Hinv : 1 <= / d).
  { apply Qle_shift_inv_l; [done|]. by rewrite Qmult_1_l. }
  pose proof (Qpower_1_le (/ d) k Hinv Hk) as H1. rewrite Qinv_power in H1.
  apply (Qmult_le_l _ _ (d ^ k) Hdk) in H1.
  rewrite Qmult_1_r, Qmult_inv_r in H1; [done|].
  intros Hz. rewrite Hz in Hdk. by apply Qlt_irrefl in Hdk.
Qed.

(** A rate in [(0, 1]] raised to a larger power is no larger. *)
Lemma Qpower_antitone (d : Q) (n m : Z) :
  0 < d → d <= 1 → (0 <= n <= m)%Z → d ^ m <= d ^ n.
Proof.
  intros Hpos Hle [Hn Hnm].
  replace m with (n + (m - n))%Z by ring.
  rewrite Qpower_plus.
  2: { intros Hz. rewrite Hz in Hpos. by apply Qlt_irrefl in Hpos. }
  rewrite <- (Qmult_1_r (d ^ n)) at 2.
  apply Qmult_le_l; [by apply Qpower_0_lt|].
  apply Qpower_le_1; [done..|]. by apply Z.le_0_sub.
Qed.

(** C8. The rate is [base_lr * decay_rate ^ floor(step / (steps_per_epoch
    * decay_epoch_num))], the division being the floor division of
    integers: it is [base_lr] during the first period and is multiplied
    by [decay_rate] each time a period ends; with [base_lr = 0.01],
    [decay_rate = 0.95], [steps_per_epoch = 468] and [decay_epoch_num = 1]
    it is within [1e-4] of 0.0095 at step 468; and for a learning rate
    [base_lr >= 0] and a [decay_rate] in [(0, 1]] it never increases with
    the step. *)
Theorem exponential_decay_staircase (base_lr decay_rate : Q)
    (steps_per_epoch decay_epoch_num : positive) :
  let period := N.pos (steps_per_epoch * decay_epoch_num) in
  let rate :=
    KongFu.exponential_decay base_lr decay_rate steps_per_epoch
                             decay_epoch_num in
  (∀ step,
     rate step
     == base_lr
        * decay_rate
          ^ (Z.of_N step
             / (Z.pos steps_per_epoch * Z.pos decay_epoch_num))%Z) ∧
  (∀ step, (step < period)%N → rate step == base_lr) ∧
  (∀ step, rate (step + period)%N == rate step * decay_rate) ∧
  Qabs (KongFu.exponential_decay (1 # 100) (95 # 100) 468 1 468
        - (95 # 10000)) <= 1 # 10000 ∧
  (0 <= base_lr → 0 < decay_rate → decay_rate <= 1 →
   ∀ step1 step2, (step1 <= step2)%N → rate step2 <= rate step1).
Proof.
  intros period rate.
  assert (Hperiod : period ≠ 0%N) by done.
  unfold rate, KongFu.exponential_decay. fold period.
  split; [|split; [|split; [|split]]].
  - intros step. rewrite N2Z.inj_div. unfold period.
    rewrite N2Z.inj_pos, Pos2Z.inj_mul. reflexivity.
  - intros step Hstep. rewrite N.div_small by done. cbn. apply Qmult_1_r.
  - intros step.
    replace (step + period)%N with (step + 1 * period)%N
      by (by rewrite N.mul_1_l).
    rewrite N.div_add by done. rewrite N2Z.inj_add.
    rewrite Qpower_plus'.
    + cbn. by rewrite Qmult_assoc.
    + pose proof (N2Z.is_nonneg (step / period)) as Hnn.
      change (Z.of_N 1) with 1%Z. intros Hz. revert Hz.
      apply Z.neq_sym, Z.lt_neq. by apply Z.lt_succ_r in Hnn.
  - vm_compute. discriminate.
  - intros Hbase Hpos Hle step1 step2 H12.
    rewrite !(Qmult_comm base_lr). apply Qmult_le_compat_r; [|done].
    apply Qpower_antitone; [done..|]. split.
    + apply N2Z.is_nonneg.
    + apply N2Z.inj_le. by apply N.Div0.div_le_mono.
Qed.

End ExponentialDecay.

(** * The theorems at work on the small backend *)

Section Examples.
#[local] Existing Instance Toy.toy.
Import Toy.

Lemma elem_of_computed {A} (x : A) (l : list A) : In x l → x ∈ l.
Proof. apply list_elem_of_In. Qed.

Lemma setup_runs_phases_in_order_witness :
  let first := ProcessingLayer.setup dense 0 ["x"] (one_layer None) in
  (∃ f1 f4,
      went_through (ProcessingLayer.methods dense) 0 ["x"] (one_layer None)
                   (fresh_layer None) f1 f4 first.1 first.2.2 ∧
      (keeps_flags (ProcessingLayer.methods dense) 0 →
       f1 = None ∧ f4 = None)) ∧
  flag_of 0 first.2.2 = Some (Some true) ∧
  (keeps_flags (ProcessingLayer.methods dense) 0 →
   ∀ args2 evs2 w2,
     Block.setup (ProcessingLayer.methods dense) 0 args2 first.2.2
     = (evs2, (Ok tt, w2)) →
     ∃ o', objs first.2.2 !! 0 = Some o' ∧
           is_setup (base o') = Some true ∧
           went_through (ProcessingLayer.methods dense) 0 args2 first.2.2
                        o' (Some true) (Some true) evs2 w2).
Proof.
  intros first.
  apply (setup_runs_phases_in_order (H := toy)
           (ProcessingLayer.methods dense) 0 ["x"] (one_layer None)
           (fresh_layer None) first.1 first.2.2).
  - reflexivity.
  - vm_compute. reflexivity.
Defined.

Lemma val_copy_shares_var_list_witness :
  ∃ C w' c,
    ProcessingLayer.get_val_copy 0 (one_layer None) = ([], (Ok C, w')) ∧
    C ≠ 0 ∧
    objs w' !! C = Some c ∧
    var_list (ext c) = var_list (ext (fresh_layer None)) ∧
    is_val (ext c) = true ∧
    objs w' !! 0 = Some (fresh_layer None) ∧
    lists w' = lists (one_layer None).
Proof.
  apply (val_copy_shares_var_list (H := toy) (one_layer None) 0
           (fresh_layer None)); reflexivity.
Defined.

Lemma setup_again_keeps_var_list_witness :
  lists (ProcessingLayer._get_variable 0 "weights" [2; 2]%Z tt trained).2.2
  = lists trained ∧
  lists (ProcessingLayer.setup dense 0 ["y"] trained).2.2 = lists trained.
Proof.
  destruct (setup_again_keeps_var_list (H := toy) dense 0 trained trained_layer)
    as [Hreuse _].
  - vm_compute. reflexivity.
  - destruct (Hreuse eq_refl) as [Hget Hsetup]. split.
    + apply Hget.
    + destruct (ProcessingLayer.setup dense 0 ["y"] trained)
        as [evs [r w']] eqn:Hrun.
      by destruct (Hsetup ["y"] evs r w' Hrun).
Defined.

Lemma get_variable_registers_or_reuses_witness :
  ProcessingLayer._get_variable 0 "weights" [2; 2]%Z tt (one_layer None)
  = ([Got "weights" "weights" "weights"],
     (Ok "weights", World (objs (one_layer None))
                          (<[0 := [] ++ ["weights"]]>
                             (lists (one_layer None))) [] [])) ∧
  ProcessingLayer._get_variable 0 "weights" [2; 2]%Z tt trained
  = ([Got "weights" "weights" "weights/ExponentialMovingAverage"],
     (Ok "weights/ExponentialMovingAverage",
      with_graph (tf trained)
        (logged DEBUG (UseMovingAverage "weights")
                (with_graph (tf trained) trained)))).
Proof.
  split.
  - destruct (get_variable_registers_or_reuses (H := toy)
                (one_layer None) 0
                (fresh_layer None) "weights" [2; 2]%Z tt "weights" [])
      as (Hfresh & _ & _); [reflexivity..|].
    apply (Hfresh eq_refl []). reflexivity.
  - destruct (get_variable_registers_or_reuses (H := toy) trained 0
                trained_layer "weights" [2; 2]%Z tt "weights" (tf trained))
      as (_ & _ & Havg); [vm_compute; reflexivity|reflexivity|].
    apply (Havg eq_refl (Finite (9 # 10)) tt
                "weights/ExponentialMovingAverage" (tf trained));
      [reflexivity| |reflexivity..].
    split; [discriminate|reflexivity].
Defined.

Lemma data_absent_until_stored_witness :
  let made := ProcessingLayer.__init__ (V := acquisition) "Dense" None true
                (Some "fc") None empty in
  let ready := ProcessingLayer.setup dense 0 ["x"] made.2.2 in
  ProcessingLayer.data 0 made.2.2 = ([], (Ok None, made.2.2)) ∧
  ProcessingLayer.loss 0 made.2.2 = ([], (Ok None, made.2.2)) ∧
  ∃ t, ProcessingLayer.data 0 ready.2.2 = ([], (Ok (Some t), ready.2.2)).
Proof.
  intros made ready.
  destruct (data_absent_until_stored (H := toy) (V := acquisition) dense
              "Dense" None true (Some "fc") None empty made.1 0 made.2.2)
    as (Hdata & Hloss & Hstored).
  - vm_compute. reflexivity.
  - split; [exact Hdata|]. split; [exact Hloss|].
    apply (Hstored 0 made.2.2
             (Obj {| name := "fc"; do_summary := true; bag := None;
                          is_setup := None |}
                       (Layer None 0 false None None None None))
             ["x"] ready.1).
    + vm_compute. reflexivity.
    + intros [|x args]; cbn; done.
    + vm_compute. reflexivity.
Defined.

(** C5 as stated fails: a layer whose [_setup] stores nothing is set up
    without error and still has no output. *)
Lemma idle_setup_leaves_data_absent :
  let ready := ProcessingLayer.setup idle 0 [] (one_layer None) in
  ready.2.1 = Ok tt ∧
  ProcessingLayer.data 0 ready.2.2 = ([], (Ok None, ready.2.2)).
Proof. vm_compute. split; reflexivity. Qed.

Lemma decay_checked_at_construction_witness :
  (∃ e w', (ProcessingLayer.__init__ (V := acquisition) "Dense"
              (Some (Finite (3 # 10))) true None None empty).2
           = (Raise e, w')) ∧
  ProcessingLayer.__init__ (V := acquisition) "Dense"
    (Some (Finite (3 # 10))) true (Some "fc") None empty
  = ([], (Raise (AssertionError
       "Invalid moving_average_decay value {}. Should be None or between [0.5, 1]"),
          logged INFO (HasBag "fc" None) empty)) ∧
  ∃ self w',
    ProcessingLayer.__init__ (V := acquisition) "Dense" decay9 true
      (Some "fc") None empty = ([], (Ok self, w')) ∧
    objs w' !! self
    = Some (Obj {| name := "fc"; do_summary := true; bag := None;
                        is_setup := None |}
                     (Layer decay9 (fresh (dom (lists empty))) false
                            None None None None)).
Proof.
  assert (Hout : ∃ x, Some (Finite (3 # 10)) = Some x ∧ ¬ in_decay_range x).
  { exists (Finite (3 # 10)). split; [reflexivity|].
    intros [Hlo _]. revert Hlo. apply Qlt_not_le. reflexivity. }
  assert (Hin : decay9 = None ∨ ∃ x, decay9 = Some x ∧ in_decay_range x).
  { right. exists (Finite (9 # 10)). split; [reflexivity|].
    split; [discriminate|reflexivity]. }
  split; [|split].
  - exact (proj1 (proj1 (decay_checked_at_construction (H := toy)
             (V := acquisition) "Dense" (Some (Finite (3 # 10))) true None
             None empty) Hout)).
  - exact (proj2 (proj1 (decay_checked_at_construction (H := toy)
             (V := acquisition) "Dense" (Some (Finite (3 # 10))) true
             (Some "fc") None empty) Hout) "fc" eq_refl eq_refl).
  - destruct (proj2 (decay_checked_at_construction (H := toy)
                (V := acquisition) "Dense" decay9 true (Some "fc") None
                empty) Hin "fc" eq_refl eq_refl)
      as (self & w' & Hrun & _ & _ & _ & Hobjs & _).
    exists self, w'. split; [exact Hrun|].
    rewrite Hobjs. apply lookup_insert_eq.
Defined.

(** C6 as stated fails: a decay in range does not make the construction
    succeed when the name is left to its default. *)
Lemma decay_in_range_without_name_exits :
  in_decay_range (Finite (9 # 10)) ∧
  ProcessingLayer.__init__ (V := acquisition) "Dense" decay9 true None None
    empty
  = ([], (Raise (SystemExit 1), logged ERROR (NameMissing "Dense") empty)).
Proof. split; [split; [discriminate|reflexivity]|reflexivity]. Qed.

Lemma exponential_decay_staircase_witness :
  let rate := KongFu.exponential_decay (1 # 100) (95 # 100) 468 1 in
  (rate 467%N == 1 # 100)%Q ∧
  (rate (467 + 468)%N == rate 467%N * (95 # 100))%Q ∧
  (rate 900%N <= rate 100%N)%Q.
Proof.
  intros rate.
  destruct (exponential_decay_staircase (1 # 100) (95 # 100) 468 1)
    as (_ & Hfirst & Hjump & _ & Hmono).
  split; [apply Hfirst; reflexivity|].
  split; [apply Hjump|].
  apply Hmono; [discriminate|reflexivity|discriminate|discriminate].
Defined.

Lemma failed_setup_leaves_flag_witness :
  let failed := ProcessingLayer.setup dense 0 [] (one_layer None) in
  let retried := ProcessingLayer.setup dense 0 ["x"] failed.2.2 in
  failed.2.1 = Raise (ValueError "no input") ∧
  flag_of 0 failed.2.2 = Some None ∧
  Begin PreSetupShared ∈ retried.1 ∧ Begin PostSetupShared ∈ retried.1.
Proof.
  intros failed retried.
  destruct (failed_setup_leaves_flag (H := toy)
              (ProcessingLayer.methods dense) 0 [] (one_layer None)
              (fresh_layer None) failed.1 failed.2.1 failed.2.2
              Setup (ValueError "no input"))
    as (Hraise & Hflag & Hnext).
  - apply layer_keeps_flags.
  - reflexivity.
  - vm_compute. reflexivity.
  - apply elem_of_computed. vm_compute. auto 10.
  - split; [exact Hraise|]. split; [exact Hflag|].
    apply (Hnext eq_refl ["x"] retried.1 retried.2.2).
    vm_compute. reflexivity.
Defined.


End Examples.

(** * Further properties of the lifecycle code *)

(** ** More of what the methods leave alone *)

Lemma bind_ok_then `{Backend} {X V A B} (m : T X V A) (k : A → T X V B)
    (w : world X) evs a w1 evs' rw :
  m w = (evs, (Ok a, w1)) → k a w1 = (evs', rw) →
  (m ≫= k) w = (evs ++ evs', rw).
Proof. intros Hm Hk. by rewrite bind_unfold, Hm, Hk. Qed.

Section MoreFrames.
Context `{Backend}.
Implicit Types (w : world layer) (o : instance layer) (b : body).

#[global] Instance same_objs_frame : Frame same_objs.
Proof. split; unfold same_objs; cbn; congruence. Qed.

#[global] Instance kept_frame {A} (proj : instance layer → A) :
  Frame (kept proj).
Proof.
  split; unfold kept; cbn; try done.
  intros w1 w2 w3 H12 H23 l. by rewrite H23, H12.
Qed.

#[global] Instance others_kept_frame (self : loc) : Frame (others_kept self).
Proof.
  split; unfold others_kept; cbn; try done.
  intros w1 w2 w3 H12 H23 l Hl. by rewrite H23, H12.
Qed.

Lemma same_objs_list_append {V} (l : loc) (v : variable) :
  respects same_objs (list_append l v : T layer V unit).
Proof. intros w. unfold list_append. by destruct (lists w !! l). Qed.

Lemma kept_update {V A} (proj : instance layer → A) (self : loc)
    (f : instance layer → instance layer) :
  (∀ o, proj (f o) = proj o) →
  respects (kept proj) (update self f : T layer V unit).
Proof.
  intros Hf w. unfold update.
  destruct (objs w !! self) as [o|] eqn:Ho; [|apply frame_refl].
  intros l. cbn. destruct (decide (l = self)) as [->|Hne].
  - rewrite lookup_insert_eq, Ho. cbn. by rewrite Hf.
  - by rewrite lookup_insert_ne.
Qed.

Lemma kept_list_append {V A} (proj : instance layer → A) (l : loc)
    (v : variable) :
  respects (kept proj) (list_append l v : T layer V unit).
Proof. intros w. unfold list_append. by destruct (lists w !! l). Qed.

Lemma others_kept_update {V} (self : loc)
    (f : instance layer → instance layer) :
  respects (others_kept self) (update self f : T layer V unit).
Proof.
  intros w. unfold update.
  destruct (objs w !! self) as [o|]; [|apply frame_refl].
  intros l Hl. cbn. by rewrite lookup_insert_ne.
Qed.

Lemma others_kept_list_append {V} (self l : loc) (v : variable) :
  respects (others_kept self) (list_append l v : T layer V unit).
Proof. intros w. unfold list_append. by destruct (lists w !! l). Qed.

End MoreFrames.

(** Follow the shape of a method for the relations above too. *)
Ltac frame_more :=
  repeat first
    [ frame_step
    | apply same_objs_list_append
    | apply kept_list_append
    | apply others_kept_list_append
    | apply others_kept_update
    | apply kept_update; intros ?; reflexivity ].

Section MoreLayerMethods.
Context `{Backend}.
Implicit Types (w : world layer) (o : instance layer) (b : body).

(** [_post_setup] and [_get_variable] assign no attribute. *)
Lemma post_setup_objs (self : loc) :
  respects same_objs (ProcessingLayer._post_setup self).
Proof.
  unfold ProcessingLayer._post_setup, ProcessingLayer.data,
    ProcessingLayer.loss, ProcessingLayer._data_summary.
  frame_more.
Qed.

Lemma get_variable_objs (self : loc) n shape init :
  respects same_objs (ProcessingLayer._get_variable self n shape init).
Proof. unfold ProcessingLayer._get_variable. frame_more. Qed.

(** The phases around [_setup] never assign [_loss]. *)
Lemma pre_setup_shared_loss (self : loc) :
  respects (kept (λ o, _loss (ext o))) (ProcessingLayer._pre_setup_shared self).
Proof. unfold ProcessingLayer._pre_setup_shared. frame_more. Qed.

Lemma post_setup_shared_loss (self : loc) :
  respects (kept (λ o, _loss (ext o)))
           (ProcessingLayer._post_setup_shared self).
Proof.
  unfold ProcessingLayer._post_setup_shared, ProcessingLayer._var_summary.
  frame_more.
Qed.

(** Once [_pre_setup_shared] is over, the tracker is never assigned. *)
Lemma run_tracker b (self : loc) :
  respects (kept (λ o, moving_averages (ext o))) (ProcessingLayer.run b self).
Proof.
  induction b as [|n shape init k IH|f k IH|t k IH|t k IH|e];
    cbn [ProcessingLayer.run]; frame_more; auto.
Qed.

Lemma post_setup_shared_tracker (self : loc) :
  respects (kept (λ o, moving_averages (ext o)))
           (ProcessingLayer._post_setup_shared self).
Proof.
  unfold ProcessingLayer._post_setup_shared, ProcessingLayer._var_summary.
  frame_more.
Qed.

(** A method called on [self] assigns attributes of [self] only. *)
Lemma pre_setup_shared_others (self : loc) :
  respects (others_kept self) (ProcessingLayer._pre_setup_shared self).
Proof. unfold ProcessingLayer._pre_setup_shared. frame_more. Qed.

Lemma post_setup_shared_others (self : loc) :
  respects (others_kept self) (ProcessingLayer._post_setup_shared self).
Proof.
  unfold ProcessingLayer._post_setup_shared, ProcessingLayer._var_summary.
  frame_more.
Qed.

Lemma run_others b (self : loc) :
  respects (others_kept self) (ProcessingLayer.run b self).
Proof.
  induction b as [|n shape init k IH|f k IH|t k IH|t k IH|e];
    cbn [ProcessingLayer.run]; frame_more; auto.
Qed.

(** From [same_objs] to the other relations. *)
Lemma same_objs_kept {V A B} (proj : instance layer → B) (m : T layer V A) :
  respects same_objs m → respects (kept proj) m.
Proof. intros Hm w l. by rewrite (Hm w). Qed.

Lemma same_objs_others {V A} (self : loc) (m : T layer V A) :
  respects same_objs m → respects (others_kept self) m.
Proof. intros Hm w l _. by rewrite (Hm w). Qed.

(** The methods of a layer, as a schedule, for [others_kept]. *)
Lemma layer_schedule_others (impl : list tensor → body) (self : loc)
    (args : list tensor) (shared : bool) :
  Forall (λ ph, respects (others_kept self) ph.2)
         (schedule (ProcessingLayer.methods impl) self args shared).
Proof.
  unfold schedule.
  destruct shared; cbn; repeat apply Forall_cons_2;
    try apply Forall_nil_2; cbn;
    auto using pre_setup_shared_others, post_setup_shared_others, run_others,
      same_objs_others, post_setup_objs.
  all: apply pre_setup_frame, _.
Qed.

End MoreLayerMethods.

(** ** A [setup] that raises *)

Section Raising.
Context `{Backend} {X E : Type}.
Implicit Types (w : world X) (m : vtable X E).

(** A schedule that raises went through its phases in order up to the one
    that raised. *)
Lemma run_phases_raise_inv (l : list (phase * T X E unit)) w evs e w' :
  run_phases l w = (evs, (Raise e, w')) →
  ∃ l1 p h l2,
    l = l1 ++ (p, h) :: l2 ∧
    protocol evs = map (λ ph, Begin ph.1) l1 ++ [Begin p; Raised p e].
Proof.
  revert w evs. induction l as [|[q h] l IH]; intros w evs; cbn [run_phases].
  - discriminate.
  - intros Hrun.
    apply bind_inv in Hrun
      as [(e' & Hcall & [= <-])|(evs1 & [] & w1 & evs2 & Hcall & Hrun & ->)];
      apply call_inv in Hcall as (es & _ & ->).
    + exists [], q, h, l. split; [done|]. cbn.
      by rewrite protocol_app, protocol_during.
    + destruct (IH w1 evs2 Hrun) as (l1 & p & h' & l2 & -> & Hevs).
      exists ((q, h) :: l1), p, h', l2. split; [done|].
      rewrite app_nil_r. cbn. rewrite protocol_app, protocol_during, Hevs.
      done.
Qed.

(** A schedule that returns, cut in two. *)
Lemma run_phases_split_ok (l1 l2 : list (phase * T X E unit)) w evs w' :
  run_phases (l1 ++ l2) w = (evs, (Ok tt, w')) →
  ∃ evs1 w1 evs2,
    run_phases l1 w = (evs1, (Ok tt, w1)) ∧
    run_phases l2 w1 = (evs2, (Ok tt, w')) ∧
    evs = evs1 ++ evs2.
Proof.
  revert w evs. induction l1 as [|[p h] l1 IH]; intros w evs Hrun.
  - by exists [], w, evs.
  - cbn [app run_phases] in *.
    apply bind_inv in Hrun
      as [(e & _ & ?)|(es1 & [] & w1 & es2 & Hcall & Hrun & ->)]; [done|].
    destruct (IH w1 es2 Hrun) as (evs1 & w2 & evs2 & H1 & H2 & ->).
    exists (es1 ++ evs1), w2, evs2.
    rewrite (bind_ok_then _ _ _ _ _ _ _ _ Hcall H1). by rewrite app_assoc.
Qed.

Lemma schedule_phases m (self : loc) (args : list tensor) (flag : option bool) :
  map fst (schedule m self args (negb (flag_truthy flag))) = phase_order flag.
Proof. unfold schedule, phase_order. by destruct (flag_truthy flag). Qed.

(** X1. A [setup] that raises either could not enter the scope, or
    entered it, went through the phases in their order up to the one that
    raised, started none after it, and left the scope. The methods are
    those of any class that leaves the flag to [setup]. *)
Theorem raising_setup_stops_in_order m (self : loc) (args : list tensor)
    w o evs e w' :
  keeps_flags m self →
  objs w !! self = Some o →
  Block.setup m self args w = (evs, (Raise e, w')) →
  (∃ g, variable_scope_enter (name (base o)) (is_setup (base o)) (tf w)
          = (Raise e, g) ∧
        evs = [ScopeEnter (name (base o)) (is_setup (base o))] ∧
        w' = with_graph g w) ∨
  (∃ ps p qs,
      phase_order (is_setup (base o)) = ps ++ p :: qs ∧
      protocol evs
      = ScopeEnter (name (base o)) (is_setup (base o))
        :: map Begin ps ++ [Begin p; Raised p e; ScopeExit]).
Proof.
  intros K Hself Hrun.
  apply (setup_inv _ _ _ _ _ _ _ _ K Hself) in Hrun
    as [(e' & g & Hg & -> & [= <-] & ->)
       |(g & bevs & rb & wb & ob & _ & Hb & -> & _ & _ & Hend)].
  { left. by exists g. }
  right. destruct rb as [[]|e']; destruct Hend as [[=] _]; subst e'.
  apply run_phases_raise_inv in Hb as (l1 & p & h & l2 & Hl & Hevs).
  exists (map fst l1), p, (map fst l2). split.
  - by rewrite <- (schedule_phases m self args), Hl, map_app.
  - cbn. rewrite protocol_app, Hevs, map_map. cbn.
    by rewrite <- app_assoc.
Qed.

(** X2. With the methods [Block] itself defines, [setup] gets as far as
    the abstract [_setup] and raises out of it: [NotImplementedError]
    when [setup] was given no input, and the [TypeError] of calling a
    method that takes [self] only with more arguments when it was given
    some. The scope is entered and left, [_pre_setup] and (the flag being
    falsy) [_pre_setup_shared] have run, and nothing but the backend
    changed. *)
Theorem abstract_setup_is_not_implemented (self : loc) (args : list tensor)
    w o (g : graph) :
  objs w !! self = Some o →
  variable_scope_enter (name (base o)) (is_setup (base o)) (tf w)
    = (Ok tt, g) →
  let e :=
    match args with
    | [] => NotImplementedError
              "Each sub-layer needs to implement thismethod to process data!"
    | _ :: _ => TypeError 1 (S (length args))
    end in
  Block.setup (Block.methods (E := E)) self args w
  = (ScopeEnter (name (base o)) (is_setup (base o))
     :: Begin PreSetup
     :: (if flag_truthy (is_setup (base o)) then []
         else [Begin PreSetupShared])
     ++ [Begin Setup; Raised Setup e; ScopeExit],
     (Raise e, with_graph (variable_scope_exit g) w)).
Proof.
  intros Hself Hg e.
  rewrite (setup_schedule _ _ _ _ _ (block_keeps_flags self) Hself).
  unfold Block.with_variable_scope, schedule.
  rewrite !bind_unfold. cbn. unfold with_, backend. rewrite Hg.
  subst e. destruct (flag_truthy (is_setup (base o))), args; reflexivity.
Qed.

End Raising.

(** ** Construction, registration and sharing *)

Section MoreLayer.
Context `{Backend}.
Implicit Types (w : world layer) (o : instance layer) (b : body).

(** X3. Two layers constructed one after the other share nothing: they
    are distinct instances, each with its own, empty, list in [var_list];
    the second construction leaves the first layer as it was, and both
    leave every instance and every list that existed before as they
    were. *)
Theorem constructions_share_nothing {V}
    (cls1 cls2 : string) (decay1 decay2 : option num) (sum1 sum2 : bool)
    (name1 name2 : option string) (bag1 bag2 : option (gmap string string))
    (w0 : world layer) evs1 (a : loc) w1 evs2 (b : loc) w2 :
  ProcessingLayer.__init__ (V := V) cls1 decay1 sum1 name1 bag1 w0
    = (evs1, (Ok a, w1)) →
  ProcessingLayer.__init__ (V := V) cls2 decay2 sum2 name2 bag2 w1
    = (evs2, (Ok b, w2)) →
  a ≠ b ∧
  ∃ oa ob,
    objs w1 !! a = Some oa ∧ objs w2 !! a = Some oa ∧
    objs w2 !! b = Some ob ∧
    var_list (ext oa) ≠ var_list (ext ob) ∧
    lists w2 !! var_list (ext oa) = Some [] ∧
    lists w2 !! var_list (ext ob) = Some [] ∧
    (∀ l o, objs w0 !! l = Some o → objs w2 !! l = Some o) ∧
    (∀ l vs, lists w0 !! l = Some vs → lists w2 !! l = Some vs).
Proof.
  intros H1 H2.
  apply init_inv in H1 as (n1 & _ & _ & _ & _ & -> & ->).
  apply init_inv in H2 as (n2 & _ & _ & _ & _ & -> & ->). cbn.
  set (a := fresh (dom (objs w0))).
  set (la := fresh (dom (lists w0))).
  set (oa := Obj _ (Layer decay1 la _ _ _ _ _)).
  set (b := fresh (dom (<[a := oa]> (objs w0)))).
  set (lb := fresh (dom (<[la := []]> (lists w0)))).
  assert (Ha : objs w0 !! a = None) by apply not_elem_of_dom, is_fresh.
  assert (Hla : lists w0 !! la = None) by apply not_elem_of_dom, is_fresh.
  assert (Hb : <[a := oa]> (objs w0) !! b = None)
    by apply not_elem_of_dom, is_fresh.
  assert (Hlb : <[la := []]> (lists w0) !! lb = None)
    by apply not_elem_of_dom, is_fresh.
  assert (Hab : a ≠ b).
  { intros Heq. rewrite <- Heq, lookup_insert_eq in Hb. done. }
  assert (Hlab : la ≠ lb).
  { intros Heq. rewrite <- Heq, lookup_insert_eq in Hlb. done. }
  assert (Hb0 : objs w0 !! b = None) by by rewrite lookup_insert_ne in Hb.
  assert (Hlb0 : lists w0 !! lb = None)
    by by rewrite lookup_insert_ne in Hlb.
  split; [done|]. eexists oa, _.
  split; [apply lookup_insert_eq|].
  split; [by rewrite lookup_insert_ne, lookup_insert_eq|].
  split; [apply lookup_insert_eq|]. cbn.
  split; [done|].
  split; [by rewrite lookup_insert_ne, lookup_insert_eq|].
  split; [apply lookup_insert_eq|]. split.
  - intros l o Hl. rewrite !lookup_insert_ne; [done|congruence..].
  - intros l vs Hl. rewrite !lookup_insert_ne; [done|congruence..].
Qed.

(** X4. Whatever its inputs and however it ends, a [setup] of a layer
    changes the list objects in one way only, by appending to the list
    [var_list] refers to: nothing when the flag is truthy, when the scope
    cannot be entered or when [_pre_setup_shared] raises; and otherwise
    the handles the backend answers to the requests of [_setup], in
    order, up to where [_setup] stopped. *)
Theorem setup_registers_what_it_acquired (impl : list tensor → body)
    (self : loc) (args : list tensor) w o vs evs r w' :
  objs w !! self = Some o →
  lists w !! var_list (ext o) = Some vs →
  ProcessingLayer.setup impl self args w = (evs, (r, w')) →
  lists w'
  = <[var_list (ext o)
      := vs ++ appended (impl args) (ProcessingLayer._pre_setup_shared self)
                        (name (base o)) (is_setup (base o)) w]> (lists w).
Proof.
  intros Ho Hvs Hrun.
  assert (Hnil : lists w = <[var_list (ext o) := vs ++ []]> (lists w))
    by by rewrite app_nil_r, insert_id.
  unfold appended.
  destruct (flag_truthy (is_setup (base o))) eqn:Hflag.
  { destruct (layer_setup_effect impl self args w o evs r w' Ho Hrun)
      as (_ & _ & Hre & _). by rewrite Hre. }
  unfold ProcessingLayer.setup in Hrun.
  apply (setup_inv _ _ _ _ _ _ _ _ (layer_keeps_flags impl self) Ho) in Hrun
    as [(e & g & Hg & _ & _ & ->)
       |(g & bevs & rb & wb & ob & Hg & Hb & _ & _ & _ & Hend)];
    rewrite Hg; [done|].
  assert (Hlists : lists w' = lists wb)
    by (destruct rb as [[]|e]; by destruct Hend as [_ ->]).
  rewrite Hlists. clear Hend Hlists.
  rewrite Hflag in Hb. unfold schedule in Hb. cbn in Hb.
  apply bind_inv in Hb
    as [(e & Hc & _)|(? & [] & w1 & ? & Hc & Hb & _)];
    apply call_inv in Hc as (? & Hc & _); [done|].
  injection Hc as _ <-.
  assert (Ho0 : objs (with_graph g w) !! self = Some o) by exact Ho.
  pose proof (pre_setup_shared_lists self (with_graph g w)) as Hl1.
  pose proof (pre_setup_shared_evolves self (with_graph g w)) as Hev.
  apply bind_inv in Hb
    as [(e & Hc & _)|(? & [] & wp & ? & Hc & Hb & _)];
    apply call_inv in Hc as (es1 & Hpre & _);
    rewrite Hpre in Hl1, Hev |- *; cbn in Hl1, Hev; unfold same_lists in Hl1;
    [by rewrite Hl1|].
  destruct (evolves_lookup _ _ _ _ Hev Ho0) as (oc & Hoc & Hbase & Hvl & _).
  assert (Hsetup : ∀ es2 r2 ws,
            ProcessingLayer.run (impl args) self wp = (es2, (r2, ws)) →
            lists ws
            = <[var_list (ext o)
                := vs ++ handles_to_register (impl args) (tf wp)]>
                (lists w)).
  { intros es2 r2 ws Hsetup.
    rewrite (run_registers (impl args) self wp oc vs es2 r2 ws Hoc);
      [by rewrite Hvl, Hl1|by rewrite Hbase|by rewrite Hvl, Hl1|done]. }
  apply bind_inv in Hb
    as [(e & Hc & _)|(? & [] & ws & evs' & Hc & Hb & _)];
    apply call_inv in Hc as (es2 & Hc & _); [by eapply Hsetup|].
  pose proof (respects_run_phases same_lists
                [(PostSetup, ProcessingLayer._post_setup self);
                 (PostSetupShared, ProcessingLayer._post_setup_shared self)])
    as Hrest.
  specialize (Hrest ltac:(
    repeat apply Forall_cons_2; try apply Forall_nil_2; cbn;
    auto using post_setup_lists, post_setup_shared_lists) ws).
  assert (Hb' : run_phases
                  [(PostSetup, ProcessingLayer._post_setup self);
                   (PostSetupShared, ProcessingLayer._post_setup_shared self)]
                  ws = (evs', (rb, wb))) by exact Hb.
  rewrite Hb' in Hrest. cbn in Hrest. unfold same_lists in Hrest.
  rewrite Hrest. by eapply Hsetup.
Qed.

(** What [_pre_setup_shared] did when it returns on a layer with a
    truthy decay. *)
Lemma pre_setup_shared_inv (self : loc) w o d es w1 :
  objs w !! self = Some o →
  moving_average_decay (ext o) = Some d →
  num_truthy d = true →
  ProcessingLayer._pre_setup_shared self w = (es, (Ok tt, w1)) →
  ∃ g1 step g2 ma g3,
    variable_scope_enter global_var_scope (Some true) (tf w) = (Ok tt, g1) ∧
    get_variable GLOBAL_STEP None None g1 = (Ok step, g2) ∧
    ExponentialMovingAverage d step (variable_scope_exit g2) = (Ok ma, g3) ∧
    w1 = World (<[self := set_ext (ProcessingLayer.set_moving_averages
                                     (Some ma)) o]> (objs w))
               (lists w) g3 (glog w).
Proof.
  intros Ho Hd Ht. unfold ProcessingLayer._pre_setup_shared.
  rewrite (bind_silent _ _ _ _ _ (deref_lookup self w o Ho)).
  rewrite Hd, Ht. cbn [when]. intros Hrun.
  apply bind_inv in Hrun
    as [(e & _ & ?)|(es1 & step0 & w2 & es2 & Hstep & Hrun & ->)]; [done|].
  unfold with_, backend in Hstep.
  destruct (variable_scope_enter global_var_scope (Some true) (tf w))
    as [[[]|e] g1] eqn:Hg1; [|done]. cbn in Hstep.
  destruct (get_variable GLOBAL_STEP None None g1) as [[step|e] g2] eqn:Hg2;
    [|done].
  injection Hstep as <- <- <-.
  apply bind_inv in Hrun
    as [(e & _ & ?)|(es1 & ma & w3 & es3 & Hma & Hupd & _)]; [done|].
  apply backend_inv in Hma as (g3 & Hma & _ & ->). cbn in Hma.
  rewrite (update_lookup self _ _ o) in Hupd by done.
  injection Hupd as _ <-. by exists g1, step, g2, ma, g3.
Qed.

End MoreLayer.

(** ** The tracker, the validation copy and the outputs *)

Section Trackers.
Context `{Backend}.
Implicit Types (w : world layer) (o : instance layer) (b : body).

Lemma kept_lookup {A} (proj : instance layer → A) w w' (self : loc) o :
  kept proj w w' → objs w !! self = Some o →
  ∃ o', objs w' !! self = Some o' ∧ proj o' = proj o.
Proof.
  intros Hk Ho. specialize (Hk self). rewrite Ho in Hk.
  destruct (objs w' !! self) as [o'|]; [|done].
  injection Hk as Hk. eauto.
Qed.

(** The first two phases of a first setup. *)
Lemma run_first_phases (self : loc) w evs w1 :
  run_phases [(PreSetup, Block._pre_setup self);
              (PreSetupShared, ProcessingLayer._pre_setup_shared self)] w
    = (evs, (Ok tt, w1)) →
  ∃ es, ProcessingLayer._pre_setup_shared self w = (es, (Ok tt, w1)).
Proof.
  cbn [run_phases]. intros Hrun.
  apply bind_inv in Hrun
    as [(e & _ & ?)|(es1 & [] & wa & es2 & Hpre & Hrun & ->)]; [done|].
  apply call_inv in Hpre as (es & Hpre & _). injection Hpre as _ <-.
  apply bind_inv in Hrun
    as [(e & _ & ?)|(es3 & [] & wb & es4 & Hshared & Hret & ->)]; [done|].
  apply call_inv in Hshared as (es' & Hshared & _).
  injection Hret as _ <-. eauto.
Qed.

(** X5. A first [setup] that returns, of a layer with a truthy decay [d],
    leaves in [moving_averages] the tracker that
    [ExponentialMovingAverage] made from [d] and from the global step,
    itself looked up under the global scope entered in reuse mode; no
    later phase of that [setup] replaces it. *)
Theorem first_setup_binds_tracker (impl : list tensor → body) (self : loc)
    (args : list tensor) w o d evs w' :
  objs w !! self = Some o →
  flag_truthy (is_setup (base o)) = false →
  moving_average_decay (ext o) = Some d →
  num_truthy d = true →
  ProcessingLayer.setup impl self args w = (evs, (Ok tt, w')) →
  ∃ o' g0 g1 step g2 ma g3,
    objs w' !! self = Some o' ∧
    moving_averages (ext o') = Some ma ∧
    variable_scope_enter (name (base o)) (is_setup (base o)) (tf w)
      = (Ok tt, g0) ∧
    variable_scope_enter global_var_scope (Some true) g0 = (Ok tt, g1) ∧
    get_variable GLOBAL_STEP None None g1 = (Ok step, g2) ∧
    ExponentialMovingAverage d step (variable_scope_exit g2) = (Ok ma, g3).
Proof.
  intros Ho Hflag Hd Ht Hrun. unfold ProcessingLayer.setup in Hrun.
  apply (setup_inv _ _ _ _ _ _ _ _ (layer_keeps_flags impl self) Ho) in Hrun
    as [(e & g & _ & _ & [=] & _)
       |(g & bevs & rb & wb & ob & Hg & Hb & _ & Hob & _ & Hend)].
  destruct rb as [[]|e]; destruct Hend as [? ->]; [|done].
  rewrite Hflag in Hb. unfold schedule in Hb. cbn in Hb.
  apply (run_phases_split_ok
           [(PreSetup, Block._pre_setup self);
            (PreSetupShared, ProcessingLayer._pre_setup_shared self)]
           [(Setup, ProcessingLayer.run (impl args) self);
            (PostSetup, ProcessingLayer._post_setup self);
            (PostSetupShared, ProcessingLayer._post_setup_shared self)])
    in Hb as (evs1 & w1 & evs2 & H1 & H2 & _).
  apply run_first_phases in H1 as (es & H1).
  apply (pre_setup_shared_inv self (with_graph g w) o d) in H1
    as (g1 & step & g2 & ma & g3 & Hg1 & Hg2 & Hma & ->); [|done..].
  assert (Hkept : kept (λ o, moving_averages (ext o))
                    (World (<[self := set_ext (ProcessingLayer.set_moving_averages
                                                 (Some ma)) o]> (objs w))
                           (lists w) g3 (glog w)) wb).
  { pose proof (respects_run_phases (kept (λ o, moving_averages (ext o)))
                  [(Setup, ProcessingLayer.run (impl args) self);
                   (PostSetup, ProcessingLayer._post_setup self);
                   (PostSetupShared, ProcessingLayer._post_setup_shared self)])
      as Hr.
    match type of H2 with
    | run_phases _ ?w1 = _ => specialize (Hr ltac:(
        repeat apply Forall_cons_2; try apply Forall_nil_2; cbn;
        auto using run_tracker, post_setup_shared_tracker, same_objs_kept,
          post_setup_objs) w1)
    end.
    by rewrite H2 in Hr. }
  eapply kept_lookup in Hkept as (ob' & Hob' & Hma'); [|apply lookup_insert_eq].
  assert (ob' = ob) as -> by congruence. cbn in Hma'.
  exists (set_is_setup (Some true) ob), g, g1, step, g2, ma, g3.
  cbn in *. rewrite lookup_insert_eq. done.
Qed.

(** A [setup] of [self] assigns attributes of [self] only. *)
Lemma layer_setup_others (impl : list tensor → body) (self : loc)
    (args : list tensor) w o evs r w' :
  objs w !! self = Some o →
  ProcessingLayer.setup impl self args w = (evs, (r, w')) →
  others_kept self w w'.
Proof.
  intros Ho Hrun. unfold ProcessingLayer.setup in Hrun.
  apply (setup_inv _ _ _ _ _ _ _ _ (layer_keeps_flags impl self) Ho) in Hrun
    as [(e & g & _ & _ & _ & ->)
       |(g & bevs & rb & wb & ob & _ & Hb & _ & _ & _ & Hend)]; [done|].
  pose proof (respects_run_phases (others_kept self) _
                (layer_schedule_others impl self args
                   (negb (flag_truthy (is_setup (base o)))))
                (with_graph g w)) as Hr.
  rewrite Hb in Hr. cbn in Hr. intros l Hl. specialize (Hr l Hl).
  destruct rb as [[]|e]; destruct Hend as [_ ->]; cbn;
    [by rewrite lookup_insert_ne|done].
Qed.

(** What a [setup] in reuse mode that returns leaves of [self]. *)
Lemma layer_setup_reuse_self (impl : list tensor → body) (self : loc)
    (args : list tensor) w o evs w' :
  objs w !! self = Some o →
  flag_truthy (is_setup (base o)) = true →
  ProcessingLayer.setup impl self args w = (evs, (Ok tt, w')) →
  ∃ o', objs w' !! self = Some o' ∧
        is_val (ext o') = is_val (ext o) ∧
        var_list (ext o') = var_list (ext o) ∧
        moving_averages (ext o') = moving_averages (ext o).
Proof.
  intros Ho Hflag Hrun. unfold ProcessingLayer.setup in Hrun.
  apply (setup_inv _ _ _ _ _ _ _ _ (layer_keeps_flags impl self) Ho) in Hrun
    as [(e & g & _ & _ & [=] & _)
       |(g & bevs & rb & wb & ob & _ & Hb & _ & Hob & _ & Hend)].
  destruct rb as [[]|e]; destruct Hend as [? ->]; [|done].
  pose proof (run_phases_lists self _ (with_graph g w) o bevs (Ok tt) wb
                (layer_schedule_tracks impl self args _) Ho Hb)
    as (Hev & _).
  destruct (evolves_lookup _ _ _ _ Hev Ho) as (ob' & Hob' & _ & Hvl & _ & Hval & _).
  assert (ob' = ob) as -> by congruence.
  rewrite Hflag in Hb. unfold schedule in Hb. cbn in Hb.
  assert (Hb' : run_phases
                  [(PreSetup, Block._pre_setup self);
                   (Setup, ProcessingLayer.run (impl args) self);
                   (PostSetup, ProcessingLayer._post_setup self)]
                  (with_graph g w) = (bevs, (Ok tt, wb))) by exact Hb.
  clear Hb. rename Hb' into Hb.
  pose proof (respects_run_phases (kept (λ o, moving_averages (ext o)))
                [(PreSetup, Block._pre_setup self);
                 (Setup, ProcessingLayer.run (impl args) self);
                 (PostSetup, ProcessingLayer._post_setup self)]) as Hr.
  specialize (Hr ltac:(
    repeat apply Forall_cons_2; try apply Forall_nil_2; cbn;
    auto using run_tracker, same_objs_kept, post_setup_objs;
    apply pre_setup_frame, _) (with_graph g w)).
  rewrite Hb in Hr. cbn in Hr.
  eapply kept_lookup in Hr as (ob' & Hob'' & Hma); [|exact Ho].
  assert (ob' = ob) as -> by congruence.
  exists (set_is_setup (Some true) ob). cbn. rewrite lookup_insert_eq. done.
Qed.

(** X6. The validation copy of a layer whose flag is truthy is set up in
    reuse mode: a [setup] of the copy, however it ends, changes no list
    and leaves the layer it was copied from exactly as it was; when it
    returns, it entered the scope with that flag, skipped both shared
    phases, and the copy is still a validation instance holding the
    [var_list] and the tracker of the original. *)
Theorem val_copy_of_ready_layer_reuses (impl : list tensor → body)
    (L : loc) w o :
  objs w !! L = Some o →
  flag_truthy (is_setup (base o)) = true →
  ∃ C w1,
    ProcessingLayer.get_val_copy L w = ([], (Ok C, w1)) ∧
    C ≠ L ∧
    ∀ args evs r w2,
      ProcessingLayer.setup impl C args w1 = (evs, (r, w2)) →
      lists w2 = lists w ∧
      objs w2 !! L = Some o ∧
      (r = Ok tt →
       protocol evs
       = [ScopeEnter (name (base o)) (is_setup (base o)); Begin PreSetup;
          Begin Setup; Begin PostSetup; ScopeExit] ∧
       ∃ c, objs w2 !! C = Some c ∧
            is_val (ext c) = true ∧
            var_list (ext c) = var_list (ext o) ∧
            moving_averages (ext c) = moving_averages (ext o)).
Proof.
  intros HL Hflag. pose proof (fresh_instance w L o HL) as Hne.
  eexists _, _. split; [by apply get_val_copy_spec|]. split; [done|].
  intros args evs r w2 Hrun.
  match type of Hrun with
  | ProcessingLayer.setup _ ?C _ ?w1 = _ =>
      assert (HC : objs w1 !! C
                   = Some (set_ext (ProcessingLayer.set_is_val true) o))
        by apply lookup_insert_eq;
      assert (HL1 : objs w1 !! L = Some o)
        by (cbn; by rewrite lookup_insert_ne)
  end.
  destruct (layer_setup_effect impl _ args _ _ evs r w2 HC Hrun)
    as (_ & _ & Hre & _).
  split; [by rewrite Hre|]. split.
  { pose proof (layer_setup_others impl _ args _ _ evs r w2 HC Hrun) as Hothers.
    rewrite (Hothers L) by done. done. }
  intros ->. split.
  - unfold ProcessingLayer.setup in Hrun.
    destruct (setup_ok_inv _ _ _ _ _ _ _ (layer_keeps_flags impl _) HC Hrun)
      as [-> _]. cbn. unfold phases_in_order. by rewrite Hflag.
  - destruct (layer_setup_reuse_self impl _ args _ _ evs w2 HC Hflag Hrun)
      as (c & Hc & Hval & Hvl & Hma). eauto.
Qed.

End Trackers.

(** ** The moving averages of [_post_setup_shared] *)

Section Averages.
Context `{Backend}.
Implicit Types (w : world layer) (o : instance layer) (b : body).

(** X7. [_post_setup_shared] of a layer with a truthy decay and a
    non-empty [var_list] that stored no [_data] raises the
    [AttributeError] of reading [self._data]: by then
    [moving_averages_op] holds the operation that applies the moving
    averages, and the control-dependency context it opened is closed
    again. *)
Theorem post_setup_shared_needs_data (self : loc) w o d vs ma op g1 g2 :
  objs w !! self = Some o →
  moving_average_decay (ext o) = Some d →
  num_truthy d = true →
  lists w !! var_list (ext o) = Some vs →
  vs ≠ [] →
  moving_averages (ext o) = Some ma →
  ema_apply ma vs (tf w) = (Ok op, g1) →
  control_dependencies_enter [op] g1 = (Ok tt, g2) →
  _data (ext o) = None →
  ProcessingLayer._post_setup_shared self w
  = ([], (Raise (AttributeError "_data"),
          World (<[self := set_ext (ProcessingLayer.set_moving_averages_op
                                      (Some op)) o]> (objs w))
                (lists w) (control_dependencies_exit g2) (glog w))).
Proof.
  intros Ho Hd Ht Hvs Hne Hma Hop Hg2 Hdata.
  unfold ProcessingLayer._post_setup_shared.
  rewrite (bind_silent _ _ _ _ _ (deref_lookup self w o Ho)).
  cbn zeta. rewrite Hd. cbn [opt_truthy]. rewrite Ht, Hma, Hdata.
  destruct vs as [|v vs]; [done|].
  unfold_monad. cbn. rewrite Hvs. cbn. rewrite Hvs. cbn.
  rewrite Hop. cbn. rewrite Ho. cbn.
  unfold backend. cbn. rewrite Hg2. reflexivity.
Qed.

(** What a [_post_setup_shared] that returned did, for a layer with a
    truthy decay and a non-empty [var_list]. *)
Lemma post_setup_shared_inv (self : loc) w o d vs es w1 :
  objs w !! self = Some o →
  moving_average_decay (ext o) = Some d →
  num_truthy d = true →
  lists w !! var_list (ext o) = Some vs →
  vs ≠ [] →
  ProcessingLayer._post_setup_shared self w = (es, (Ok tt, w1)) →
  ∃ ma op g1 g2 t0 t g3,
    moving_averages (ext o) = Some ma ∧
    ema_apply ma vs (tf w) = (Ok op, g1) ∧
    control_dependencies_enter [op] g1 = (Ok tt, g2) ∧
    _data (ext o) = Some t0 ∧
    identity t0 (last_segment (tensor_name t0) ++ "_")%string g2
      = (Ok t, g3) ∧
    objs w1
    = <[self := set_ext (ProcessingLayer.set_data (Some t))
                  (set_ext (ProcessingLayer.set_moving_averages_op (Some op))
                           o)]> (objs w) ∧
    lists w1 = lists w.
Proof.
  intros Ho Hd Ht Hvs Hne. unfold ProcessingLayer._post_setup_shared.
  rewrite (bind_silent _ _ _ _ _ (deref_lookup self w o Ho)).
  cbn zeta. rewrite Hd. cbn [opt_truthy]. rewrite Ht.
  destruct vs as [|v vs]; [done|]. clear Hne.
  rewrite (bind_silent _ _ w true w)
    by (unfold_monad; by rewrite Hvs).
  cbn [when]. intros Hrun.
  apply bind_inv in Hrun
    as [(e & _ & ?)|(es1 & [] & wa & es2 & Hbody & Htail & ->)]; [done|].
  match type of Htail with
  | ?tail wa = _ =>
      assert (Hobjs : respects same_objs tail)
        by (unfold ProcessingLayer._var_summary; frame_more);
      assert (Hlists : respects same_lists tail)
        by (unfold ProcessingLayer._var_summary; frame_more)
  end.
  specialize (Hobjs wa). specialize (Hlists wa).
  rewrite Htail in Hobjs, Hlists. cbn in Hobjs, Hlists.
  unfold same_objs in Hobjs. unfold same_lists in Hlists.
  rewrite Hobjs, Hlists. clear Htail Hobjs Hlists.
  destruct (moving_averages (ext o)) as [ma|]; [|done].
  destruct (_data (ext o)) as [t0|] eqn:Hdata.
  - unfold_monad. cbn in Hbody. rewrite Hvs in Hbody. cbn in Hbody.
    destruct (ema_apply ma (v :: vs) (tf w)) as [[op|e] g1] eqn:Hop;
      [|done]. cbn in Hbody. rewrite Ho in Hbody. cbn in Hbody.
    unfold backend in Hbody. cbn in Hbody.
    destruct (control_dependencies_enter [op] g1) as [[[]|e] g2] eqn:Hg2;
      [|done]. cbn in Hbody.
    destruct (identity t0 (last_segment (tensor_name t0) ++ "_") g2)
      as [[t|e] g3] eqn:Hid; [|done]. cbn in Hbody.
    rewrite lookup_insert_eq in Hbody. cbn in Hbody.
    injection Hbody as <- <-. cbn. rewrite insert_insert_eq.
    by exists ma, op, g1, g2, t0, t, g3.
  - exfalso. unfold_monad. cbn in Hbody. rewrite Hvs in Hbody. cbn in Hbody.
    destruct (ema_apply ma (v :: vs) (tf w)) as [[op|e] g1]; [|done].
    cbn in Hbody. rewrite Ho in Hbody. cbn in Hbody.
    unfold backend in Hbody. cbn in Hbody.
    by destruct (control_dependencies_enter [op] g1) as [[[]|e] g2].
Qed.

(** X10. When [_post_setup_shared] of a layer with a truthy decay and a
    non-empty [var_list] returns, [moving_averages_op] holds the operation
    [moving_averages.apply(var_list)] and [_data] holds the identity of
    the data [_setup] stored, created under a control dependency on that
    operation and named by the last path segment of the data's name
    followed by an underscore; no list changed. *)
Theorem post_setup_shared_wraps_data (self : loc) w o d vs es w1 :
  objs w !! self = Some o →
  moving_average_decay (ext o) = Some d →
  num_truthy d = true →
  lists w !! var_list (ext o) = Some vs →
  vs ≠ [] →
  ProcessingLayer._post_setup_shared self w = (es, (Ok tt, w1)) →
  ∃ ma op g1 g2 t0 t g3,
    moving_averages (ext o) = Some ma ∧
    ema_apply ma vs (tf w) = (Ok op, g1) ∧
    control_dependencies_enter [op] g1 = (Ok tt, g2) ∧
    _data (ext o) = Some t0 ∧
    identity t0 (last_segment (tensor_name t0) ++ "_")%string g2
      = (Ok t, g3) ∧
    objs w1
    = <[self := set_ext (ProcessingLayer.set_data (Some t))
                  (set_ext (ProcessingLayer.set_moving_averages_op (Some op))
                           o)]> (objs w) ∧
    lists w1 = lists w.
Proof. apply post_setup_shared_inv. Qed.

End Averages.

(** ** The outputs of a layer that was set up *)

Section Outputs.
Context `{Backend}.
Implicit Types (w : world layer) (o : instance layer) (b : body).

(** Without a decay, [_post_setup_shared] assigns nothing. *)
Lemma post_setup_shared_plain (self : loc) w o :
  objs w !! self = Some o →
  opt_truthy num_truthy (moving_average_decay (ext o)) = false →
  objs (ProcessingLayer._post_setup_shared self w).2.2 = objs w.
Proof.
  intros Ho Hd. unfold ProcessingLayer._post_setup_shared.
  rewrite (bind_silent _ _ _ _ _ (deref_lookup self w o Ho)).
  cbn zeta. rewrite Hd.
  rewrite (bind_silent _ _ w false w) by reflexivity. cbn [when].
  match goal with
  | |- objs (?m w).2.2 = _ =>
      assert (Hobjs : respects same_objs m)
        by (unfold ProcessingLayer._var_summary; frame_more)
  end.
  apply Hobjs.
Qed.

(** The instance [_setup] leaves at the end of a first [setup]. *)
Lemma first_setup_instance (self : loc) b w o es1 wp es2 r ws :
  objs w !! self = Some o →
  ProcessingLayer._pre_setup_shared self w = (es1, (Ok tt, wp)) →
  ProcessingLayer.run b self wp = (es2, (r, ws)) →
  ∃ os, objs ws !! self = Some os ∧ same_skeleton o os.
Proof.
  intros Ho Hpre Hsetup.
  pose proof (pre_setup_shared_evolves self w) as He1.
  pose proof (run_evolves b self wp) as He2.
  rewrite Hpre in He1. rewrite Hsetup in He2. cbn in He1, He2.
  apply (evolves_lookup _ _ _ _ (frame_trans _ _ _ He1 He2) Ho).
Qed.

(** X9. The outputs of a layer after a [setup] that returns are those
    its [_setup] left: [_setup] ran on the inputs from the state the
    earlier phases left (the state [setup] started from inside the scope
    in reuse mode, that state after [_pre_setup_shared] otherwise) and
    returned; the property [loss] gives what [_loss] held when it
    returned, and the property [data] gives what [_data] held then
    whenever the layer was set up in reuse mode or has no truthy decay. *)
Theorem outputs_are_what_setup_stored (impl : list tensor → body)
    (self : loc) (args : list tensor) w o evs w' :
  objs w !! self = Some o →
  ProcessingLayer.setup impl self args w = (evs, (Ok tt, w')) →
  ∃ g wp es ws os,
    variable_scope_enter (name (base o)) (is_setup (base o)) (tf w)
      = (Ok tt, g) ∧
    wp = (if flag_truthy (is_setup (base o)) then with_graph g w
          else (ProcessingLayer._pre_setup_shared self
                  (with_graph g w)).2.2) ∧
    ProcessingLayer.run (impl args) self wp = (es, (Ok tt, ws)) ∧
    objs ws !! self = Some os ∧
    ProcessingLayer.loss self w' = ([], (Ok (_loss (ext os)), w')) ∧
    (flag_truthy (is_setup (base o)) = true ∨
     opt_truthy num_truthy (moving_average_decay (ext o)) = false →
     ProcessingLayer.data self w' = ([], (Ok (_data (ext os)), w'))).
Proof.
  intros Ho Hrun.
  assert (Ho0 : ∀ g, objs (with_graph g w) !! self = Some o) by done.
  destruct (flag_truthy (is_setup (base o))) eqn:Hflag.
  - destruct (layer_reuse_setup impl self args w o evs w' Ho Hflag Hrun)
      as (g & es2 & ws & es3 & wq & o5 & Hg & Hsetup & Hpost & Ho5 & ->).
    pose proof (post_setup_objs self ws) as Hobjs.
    rewrite Hpost in Hobjs. cbn in Hobjs. unfold same_objs in Hobjs.
    rewrite Hobjs in Ho5.
    exists g, (with_graph g w), es2, ws, o5.
    repeat (split; [done|]). split.
    + by erewrite loss_lookup by apply lookup_insert_eq.
    + intros _. by erewrite data_lookup by apply lookup_insert_eq.
  - destruct (layer_first_setup impl self args w o evs w' Ho Hflag Hrun)
      as (g & es1 & wp & es2 & ws & es3 & wq & es4 & wr & o5
          & Hg & Hpre & Hsetup & Hpost & Hlast & Ho5 & ->).
    destruct (first_setup_instance self _ _ o _ _ _ _ _ (Ho0 g) Hpre Hsetup)
      as (os & Hos & _ & _ & Hdec & _).
    pose proof (post_setup_objs self ws) as Hobjs.
    rewrite Hpost in Hobjs. cbn in Hobjs. unfold same_objs in Hobjs.
    assert (Hoq : objs wq !! self = Some os) by by rewrite Hobjs.
    exists g, wp, es2, ws, os. split; [done|]. split; [by rewrite Hpre|].
    split; [done|]. split; [done|]. split.
    + pose proof (post_setup_shared_loss self wq) as Hl.
      rewrite Hlast in Hl. cbn in Hl.
      destruct (kept_lookup _ _ _ _ _ Hl Hoq) as (? & Ho5' & Hloss).
      rewrite Ho5 in Ho5'. injection Ho5' as <-.
      erewrite loss_lookup by apply lookup_insert_eq. cbn. by rewrite Hloss.
    + intros [?|Hdecay]; [done|].
      pose proof (post_setup_shared_plain self wq os Hoq) as Hplain.
      rewrite Hdec in Hplain. specialize (Hplain Hdecay).
      rewrite Hlast in Hplain. cbn in Hplain.
      rewrite Hplain, Hoq in Ho5. injection Ho5 as <-.
      by erewrite data_lookup by apply lookup_insert_eq.
Qed.

End Outputs.

Section AveragedOutput.
Context `{Backend}.
Implicit Types (w : world layer) (o : instance layer) (b : body).

(** X13. After a first [setup] that returns, of a layer with a truthy
    decay whose [var_list] refers to a list that is not empty by then,
    [_setup] had stored data when it returned, and the property [data]
    gives the identity of that data, named by the last path segment of
    its name followed by an underscore and created under a control
    dependency on the operation in [moving_averages_op]: the one that
    applies the layer's moving averages to the whole list. *)
Theorem averaged_output_is_wrapped (impl : list tensor → body) (self : loc)
    (args : list tensor) w o d evs w' vs' :
  objs w !! self = Some o →
  flag_truthy (is_setup (base o)) = false →
  moving_average_decay (ext o) = Some d →
  num_truthy d = true →
  ProcessingLayer.setup impl self args w = (evs, (Ok tt, w')) →
  lists w' !! var_list (ext o) = Some vs' →
  vs' ≠ [] →
  ∃ g es1 wp es2 ws os es3 wq o' ma op t0 t g1 g2 g3,
    variable_scope_enter (name (base o)) (is_setup (base o)) (tf w)
      = (Ok tt, g) ∧
    ProcessingLayer._pre_setup_shared self (with_graph g w)
      = (es1, (Ok tt, wp)) ∧
    ProcessingLayer.run (impl args) self wp = (es2, (Ok tt, ws)) ∧
    objs ws !! self = Some os ∧
    _data (ext os) = Some t0 ∧
    ProcessingLayer._post_setup self ws = (es3, (Ok tt, wq)) ∧
    objs w' !! self = Some o' ∧
    moving_averages (ext o') = Some ma ∧
    ema_apply ma vs' (tf wq) = (Ok op, g1) ∧
    moving_averages_op (ext o') = Some op ∧
    control_dependencies_enter [op] g1 = (Ok tt, g2) ∧
    identity t0 (last_segment (tensor_name t0) ++ "_")%string g2
      = (Ok t, g3) ∧
    ProcessingLayer.data self w' = ([], (Ok (Some t), w')).
Proof.
  intros Ho Hflag Hd Ht Hrun Hvs' Hne.
  destruct (layer_first_setup impl self args w o evs w' Ho Hflag Hrun)
    as (g & es1 & wp & es2 & ws & es3 & wq & es4 & wr & o5
        & Hg & Hpre & Hsetup & Hpost & Hlast & Ho5 & ->).
  assert (Ho0 : objs (with_graph g w) !! self = Some o) by exact Ho.
  destruct (first_setup_instance self _ _ o _ _ _ _ _ Ho0 Hpre Hsetup)
    as (os & Hos & _ & Hvl & Hdec & _).
  pose proof (post_setup_objs self ws) as Hobjs.
  rewrite Hpost in Hobjs. cbn in Hobjs. unfold same_objs in Hobjs.
  assert (Hoq : objs wq !! self = Some os) by by rewrite Hobjs.
  pose proof (post_setup_shared_lists self wq) as Hl.
  rewrite Hlast in Hl. cbn in Hl. unfold same_lists in Hl.
  cbn [lists] in Hvs'. rewrite Hl, <- Hvl in Hvs'.
  rewrite <- Hdec in Hd.
  destruct (post_setup_shared_inv self wq os d vs' es4 wr Hoq Hd Ht Hvs'
              Hne Hlast)
    as (ma & op & g1 & g2 & t0 & t & g3
        & Hma & Hop & Hg2 & Hdata & Hid & Hwr & _).
  rewrite Hwr, lookup_insert_eq in Ho5. injection Ho5 as <-.
  eexists g, es1, wp, es2, ws, os, es3, wq, _, ma, op, t0, t, g1, g2, g3.
  repeat (split; [done|]).
  split; [cbn; apply lookup_insert_eq|]. cbn.
  repeat (split; [done|]).
  by erewrite data_lookup by apply lookup_insert_eq.
Qed.

End AveragedOutput.

(** ** The global step, and what [_post_setup] leaves alone *)

Section Running.
Context `{Backend} {X E : Type}.
Implicit Types (w : world X).

Lemma bind_raise {V A B} (m : T X V A) (k : A → T X V B) w evs e w1 :
  m w = (evs, (Raise e, w1)) → (m ≫= k) w = (evs, (Raise e, w1)).
Proof. intros Hm. by rewrite bind_unfold, Hm. Qed.

Lemma call_ok (p : phase) (h : T X E unit) w es w1 :
  h w = (es, (Ok tt, w1)) →
  Block.call p h w = (Begin p :: map (During p) es, (Ok tt, w1)).
Proof. unfold Block.call. by intros ->. Qed.

Lemma call_raise (p : phase) (h : T X E unit) w es e w1 :
  h w = (es, (Raise e, w1)) →
  Block.call p h w
  = (Begin p :: map (During p) es ++ [Raised p e], (Raise e, w1)).
Proof. unfold Block.call. by intros ->. Qed.

Lemma with_variable_scope_run {A} (n : string) (reuse : option bool)
    (body : T X (event E) A) w g evs r w1 :
  variable_scope_enter n reuse (tf w) = (Ok tt, g) →
  body (with_graph g w) = (evs, (r, w1)) →
  Block.with_variable_scope n reuse body w
  = (ScopeEnter n reuse :: evs ++ [ScopeExit],
     (r, with_graph (variable_scope_exit (tf w1)) w1)).
Proof.
  intros Hg Hbody. unfold Block.with_variable_scope.
  rewrite bind_unfold. unfold emit at 1. unfold with_, backend.
  rewrite Hg. unfold with_graph in *.
  by rewrite Hbody.
Qed.

End Running.

Section GlobalStep.
Context `{Backend}.
Implicit Types (w : world layer) (o : instance layer) (b : body).

(** X11. A first [setup] of a layer with a truthy decay needs the global
    step: when looking it up raises, [setup] raises the same exception
    out of [_pre_setup_shared], before [_setup] is called; both variable
    scopes are left again, and nothing but the graph changed: no
    attribute was assigned, the flag included, and no list grew. *)
Theorem setup_needs_the_global_step (impl : list tensor → body)
    (self : loc) (args : list tensor) w o d g0 g1 e g2 :
  objs w !! self = Some o →
  flag_truthy (is_setup (base o)) = false →
  moving_average_decay (ext o) = Some d →
  num_truthy d = true →
  variable_scope_enter (name (base o)) (is_setup (base o)) (tf w)
    = (Ok tt, g0) →
  variable_scope_enter global_var_scope (Some true) g0 = (Ok tt, g1) →
  get_variable GLOBAL_STEP None None g1 = (Raise e, g2) →
  ProcessingLayer.setup impl self args w
  = ([ScopeEnter (name (base o)) (is_setup (base o)); Begin PreSetup;
      Begin PreSetupShared; Raised PreSetupShared e; ScopeExit],
     (Raise e,
      with_graph (variable_scope_exit (variable_scope_exit g2)) w)).
Proof.
  intros Ho Hflag Hd Ht Hg0 Hg1 Hg2. unfold ProcessingLayer.setup.
  rewrite (setup_schedule _ _ _ _ _ (layer_keeps_flags impl self) Ho).
  rewrite Hflag. unfold schedule.
  cbn [negb app run_phases ProcessingLayer.methods v_pre_setup
         v_pre_setup_shared].
  assert (Hshared : ProcessingLayer._pre_setup_shared self (with_graph g0 w)
                    = ([], (Raise e,
                            with_graph (variable_scope_exit g2) w))).
  { unfold ProcessingLayer._pre_setup_shared.
    rewrite (bind_silent _ _ _ _ _
               (deref_lookup self (with_graph g0 w) o Ho)).
    rewrite Hd, Ht. cbn [when]. rewrite bind_unfold.
    unfold with_, backend. cbn. rewrite Hg1. cbn. by rewrite Hg2. }
  apply bind_raise.
  rewrite (with_variable_scope_run _ _ _ w g0
             [Begin PreSetup; Begin PreSetupShared; Raised PreSetupShared e]
             (Raise e) (with_graph (variable_scope_exit g2) w) Hg0);
    [reflexivity|].
  eapply (bind_ok_then _ _ _ [Begin PreSetup] tt (with_graph g0 w));
    [by apply (call_ok PreSetup _ _ [])|].
  apply bind_raise. by apply (call_raise PreSetupShared _ _ []).
Qed.

(** X12. [_post_setup] only reports: it assigns no attribute of any
    instance and changes no list, however it ends; and for a layer
    created with [do_summary] false it does nothing at all. *)
Theorem post_setup_only_reports (self : loc) w o evs r w' :
  objs w !! self = Some o →
  ProcessingLayer._post_setup self w = (evs, (r, w')) →
  objs w' = objs w ∧ lists w' = lists w ∧
  (do_summary (base o) = false → evs = [] ∧ r = Ok tt ∧ w' = w).
Proof.
  intros Ho Hrun.
  pose proof (post_setup_objs self w) as Hobjs.
  pose proof (post_setup_lists self w) as Hlists.
  rewrite Hrun in Hobjs, Hlists. split; [exact Hobjs|].
  split; [exact Hlists|]. intros Hquiet.
  unfold ProcessingLayer._post_setup in Hrun.
  rewrite (bind_silent _ _ _ _ _ (deref_lookup self w o Ho)) in Hrun.
  rewrite Hquiet in Hrun. by injection Hrun as <- <- <-.
Qed.

End GlobalStep.

(** ** The name of the identity of the data *)

Section LastSegment.

Lemma string_app_cons (c : Ascii.ascii) (a b : string) :
  (String c a ++ b = String c (a ++ b))%string.
Proof. reflexivity. Qed.

Lemma string_app_nil_r (a : string) : (a ++ "" = a)%string.
Proof.
  induction a as [|c a IH]; [done|]. by rewrite string_app_cons, IH.
Qed.

Lemma string_app_assoc (a b c : string) :
  ((a ++ b) ++ c = a ++ (b ++ c))%string.
Proof.
  induction a as [|x a IH]; [done|]. by rewrite !string_app_cons, IH.
Qed.

Lemma last_segment_from_free (acc s : string) :
  slash_free s = true → last_segment_from acc s = (acc ++ s)%string.
Proof.
  revert acc. induction s as [|c s IH]; intros acc; cbn [slash_free
    last_segment_from].
  - intros _. by rewrite string_app_nil_r.
  - destruct (Ascii.eqb c (Ascii.ascii_of_nat 47)); cbn [negb andb];
      [done|].
    intros Hs. rewrite IH by done. apply string_app_assoc.
Qed.

Lemma last_segment_from_slash (acc prefix s : string) :
  last_segment_from acc (prefix ++ String (Ascii.ascii_of_nat 47) s)
  = last_segment_from "" s.
Proof.
  revert acc. induction prefix as [|c prefix IH]; intros acc.
  - reflexivity.
  - rewrite string_app_cons. cbn [last_segment_from].
    destruct (Ascii.eqb c (Ascii.ascii_of_nat 47)); apply IH.
Qed.

(** X8. [last_segment] computes [s.split('/')[-1]]: a name without a
    slash is its own last segment, and it is the last segment of every
    path that ends with a slash followed by it. *)
Theorem last_segment_is_the_part_after_the_last_slash (prefix s : string) :
  slash_free s = true →
  last_segment s = s ∧
  last_segment (prefix ++ String (Ascii.ascii_of_nat 47) s) = s.
Proof.
  intros Hs. unfold last_segment. rewrite last_segment_from_slash.
  by rewrite last_segment_from_free.
Qed.

End LastSegment.

(** ** The further properties on the toy backend *)

Section MoreExamples.
#[local] Existing Instance Toy.toy.
Import Toy.

Lemma raising_setup_stops_in_order_witness :
  let failed := ProcessingLayer.setup dense 0 [] (one_layer None) in
  (∃ g, variable_scope_enter "fc" None [] = (Raise (ValueError "no input"), g) ∧
        failed.1 = [ScopeEnter "fc" None] ∧
        failed.2.2 = with_graph g (one_layer None)) ∨
  (∃ ps p qs,
      phase_order None = ps ++ p :: qs ∧
      protocol failed.1
      = ScopeEnter "fc" None
        :: map Begin ps
           ++ [Begin p; Raised p (ValueError "no input"); ScopeExit]).
Proof.
  intros failed.
  apply (raising_setup_stops_in_order (H := toy)
           (ProcessingLayer.methods dense) 0 [] (one_layer None)
           (fresh_layer None) failed.1 (ValueError "no input") failed.2.2).
  - apply layer_keeps_flags.
  - reflexivity.
  - vm_compute. reflexivity.
Defined.

Lemma abstract_setup_is_not_implemented_witness :
  Block.setup (Block.methods (E := acquisition)) 0 [] (one_layer None)
  = ([ScopeEnter "fc" None; Begin PreSetup; Begin PreSetupShared;
      Begin Setup;
      Raised Setup (NotImplementedError
        "Each sub-layer needs to implement thismethod to process data!");
      ScopeExit],
     (Raise (NotImplementedError
        "Each sub-layer needs to implement thismethod to process data!"),
      one_layer None)) ∧
  Block.setup (Block.methods (E := acquisition)) 0 ["x"] (one_layer None)
  = ([ScopeEnter "fc" None; Begin PreSetup; Begin PreSetupShared;
      Begin Setup; Raised Setup (TypeError 1 2); ScopeExit],
     (Raise (TypeError 1 2), one_layer None)).
Proof.
  split.
  - apply (abstract_setup_is_not_implemented (H := toy) (E := acquisition)
             0 [] (one_layer None) (fresh_layer None) []); reflexivity.
  - apply (abstract_setup_is_not_implemented (H := toy) (E := acquisition)
             0 ["x"] (one_layer None) (fresh_layer None) []); reflexivity.
Defined.

Lemma constructions_share_nothing_witness :
  let first := ProcessingLayer.__init__ (V := acquisition) "Dense" None true
                 (Some "fc1") None empty in
  let second := ProcessingLayer.__init__ (V := acquisition) "Dense" decay9
                  false (Some "fc2") None first.2.2 in
  0 ≠ 1 ∧
  ∃ oa ob,
    objs first.2.2 !! 0 = Some oa ∧ objs second.2.2 !! 0 = Some oa ∧
    objs second.2.2 !! 1 = Some ob ∧
    var_list (ext oa) ≠ var_list (ext ob) ∧
    lists second.2.2 !! var_list (ext oa) = Some [] ∧
    lists second.2.2 !! var_list (ext ob) = Some [] ∧
    (∀ l o, objs empty !! l = Some o → objs second.2.2 !! l = Some o) ∧
    (∀ l vs, lists empty !! l = Some vs → lists second.2.2 !! l = Some vs).
Proof.
  intros first second.
  apply (constructions_share_nothing (H := toy) (V := acquisition)
           "Dense" "Dense" None decay9 true false (Some "fc1") (Some "fc2")
           None None empty first.1 0 first.2.2 second.1 1 second.2.2).
  - vm_compute. reflexivity.
  - vm_compute. reflexivity.
Defined.

Lemma setup_registers_what_it_acquired_witness :
  let ready := ProcessingLayer.setup dense 0 ["x"] (one_layer None) in
  appended (dense ["x"]) (ProcessingLayer._pre_setup_shared 0) "fc" None
           (one_layer None) = ["weights"] ∧
  lists ready.2.2 = <[0 := [] ++ ["weights"]]> (lists (one_layer None)).
Proof.
  intros ready. split; [reflexivity|].
  apply (setup_registers_what_it_acquired (H := toy) dense 0 ["x"]
           (one_layer None) (fresh_layer None) [] ready.1 ready.2.1
           ready.2.2).
  - reflexivity.
  - reflexivity.
  - vm_compute. reflexivity.
Defined.

Lemma first_setup_binds_tracker_witness :
  ∃ o' g0 g1 step g2 ma g3,
    objs trained !! 0 = Some o' ∧
    moving_averages (ext o') = Some ma ∧
    variable_scope_enter "fc" None [] = (Ok tt, g0) ∧
    variable_scope_enter global_var_scope (Some true) g0 = (Ok tt, g1) ∧
    get_variable GLOBAL_STEP None None g1 = (Ok step, g2) ∧
    ExponentialMovingAverage (Finite (9 # 10)) step (variable_scope_exit g2)
    = (Ok ma, g3).
Proof.
  apply (first_setup_binds_tracker (H := toy) dense 0 ["x"]
           (one_layer decay9) (fresh_layer decay9) (Finite (9 # 10))
           (ProcessingLayer.setup dense 0 ["x"] (one_layer decay9)).1
           trained).
  - reflexivity.
  - reflexivity.
  - reflexivity.
  - reflexivity.
  - vm_compute. reflexivity.
Defined.

Lemma val_copy_of_ready_layer_reuses_witness :
  ∃ C w1,
    ProcessingLayer.get_val_copy 0 trained = ([], (Ok C, w1)) ∧
    C ≠ 0 ∧
    ∀ args evs r w2,
      ProcessingLayer.setup dense C args w1 = (evs, (r, w2)) →
      lists w2 = lists trained ∧
      objs w2 !! 0 = Some trained_layer ∧
      (r = Ok tt →
       protocol evs
       = [ScopeEnter "fc" (Some true); Begin PreSetup; Begin Setup;
          Begin PostSetup; ScopeExit] ∧
       ∃ c, objs w2 !! C = Some c ∧
            is_val (ext c) = true ∧
            var_list (ext c) = 0 ∧
            moving_averages (ext c) = Some tt).
Proof.
  apply (val_copy_of_ready_layer_reuses (H := toy) dense 0 trained
           trained_layer).
  - vm_compute. reflexivity.
  - reflexivity.
Defined.

Lemma post_setup_shared_needs_data_witness :
  let hoarder :=
    Obj {| name := "fc"; do_summary := true; bag := None; is_setup := None |}
        (Layer decay9 0 false None None (Some tt) None) in
  let w := World {[ 0 := hoarder ]} {[ 0 := ["weights"] ]} [] [] in
  ProcessingLayer._post_setup_shared 0 w
  = ([], (Raise (AttributeError "_data"),
          World (<[0 := set_ext (ProcessingLayer.set_moving_averages_op
                                   (Some tt)) hoarder]> (objs w))
                (lists w) [] [])).
Proof.
  intros hoarder w.
  apply (post_setup_shared_needs_data (H := toy) 0 w hoarder
           (Finite (9 # 10)) ["weights"] tt tt [] []).
  - reflexivity.
  - reflexivity.
  - reflexivity.
  - reflexivity.
  - discriminate.
  - reflexivity.
  - reflexivity.
  - reflexivity.
  - reflexivity.
Defined.

Lemma post_setup_shared_wraps_data_witness :
  let dense_layer :=
    Obj {| name := "fc"; do_summary := false; bag := None;
           is_setup := None |}
        (Layer decay9 0 false (Some "fc/x") None (Some tt) None) in
  let w := World {[ 0 := dense_layer ]} {[ 0 := ["weights"] ]} [] [] in
  let w1 := (ProcessingLayer._post_setup_shared 0 w).2.2 in
  ∃ ma op g1 g2 t0 t g3,
    moving_averages (ext dense_layer) = Some ma ∧
    ema_apply ma ["weights"] [] = (Ok op, g1) ∧
    control_dependencies_enter [op] g1 = (Ok tt, g2) ∧
    _data (ext dense_layer) = Some t0 ∧
    identity t0 (last_segment (tensor_name t0) ++ "_")%string g2
      = (Ok t, g3) ∧
    objs w1
    = <[0 := set_ext (ProcessingLayer.set_data (Some t))
               (set_ext (ProcessingLayer.set_moving_averages_op (Some op))
                        dense_layer)]> (objs w) ∧
    lists w1 = lists w.
Proof.
  intros dense_layer w w1.
  apply (post_setup_shared_wraps_data (H := toy) 0 w dense_layer
           (Finite (9 # 10)) ["weights"]
           (ProcessingLayer._post_setup_shared 0 w).1 w1).
  - reflexivity.
  - reflexivity.
  - reflexivity.
  - reflexivity.
  - discriminate.
  - vm_compute. reflexivity.
Defined.

Lemma outputs_are_what_setup_stored_witness :
  let again := ProcessingLayer.setup dense 0 ["y"] trained in
  ∃ g wp es ws os,
    variable_scope_enter "fc" (Some true) (tf trained) = (Ok tt, g) ∧
    wp = with_graph g trained ∧
    ProcessingLayer.run (dense ["y"]) 0 wp = (es, (Ok tt, ws)) ∧
    objs ws !! 0 = Some os ∧
    ProcessingLayer.loss 0 again.2.2
    = ([], (Ok (_loss (ext os)), again.2.2)) ∧
    (flag_truthy (Some true) = true ∨
     opt_truthy num_truthy decay9 = false →
     ProcessingLayer.data 0 again.2.2
     = ([], (Ok (_data (ext os)), again.2.2))).
Proof.
  intros again.
  apply (outputs_are_what_setup_stored (H := toy) dense 0 ["y"] trained
           trained_layer again.1 again.2.2).
  - vm_compute. reflexivity.
  - vm_compute. reflexivity.
Defined.

Lemma post_setup_only_reports_witness :
  let reported := ProcessingLayer._post_setup 0 trained in
  objs reported.2.2 = objs trained ∧ lists reported.2.2 = lists trained ∧
  (do_summary (base trained_layer) = false →
   reported.1 = [] ∧ reported.2.1 = Ok tt ∧ reported.2.2 = trained).
Proof.
  intros reported.
  apply (post_setup_only_reports (H := toy) 0 trained trained_layer).
  - vm_compute. reflexivity.
  - vm_compute. reflexivity.
Defined.

Lemma last_segment_is_the_part_after_the_last_slash_witness :
  last_segment "weights" = "weights" ∧
  last_segment ("fc1/conv" ++ String (Ascii.ascii_of_nat 47) "weights")
  = "weights".
Proof.
  apply (last_segment_is_the_part_after_the_last_slash "fc1/conv" "weights").
  reflexivity.
Defined.

Lemma averaged_output_is_wrapped_witness :
  let ready := ProcessingLayer.setup dense 0 ["x"] (one_layer decay9) in
  ∃ g es1 wp es2 ws os es3 wq o' ma op t0 t g1 g2 g3,
    variable_scope_enter "fc" None [] = (Ok tt, g) ∧
    ProcessingLayer._pre_setup_shared 0 (with_graph g (one_layer decay9))
      = (es1, (Ok tt, wp)) ∧
    ProcessingLayer.run (dense ["x"]) 0 wp = (es2, (Ok tt, ws)) ∧
    objs ws !! 0 = Some os ∧
    _data (ext os) = Some t0 ∧
    ProcessingLayer._post_setup 0 ws = (es3, (Ok tt, wq)) ∧
    objs trained !! 0 = Some o' ∧
    moving_averages (ext o') = Some ma ∧
    ema_apply ma ["weights"] (tf wq) = (Ok op, g1) ∧
    moving_averages_op (ext o') = Some op ∧
    control_dependencies_enter [op] g1 = (Ok tt, g2) ∧
    identity t0 (last_segment (tensor_name t0) ++ "_")%string g2
      = (Ok t, g3) ∧
    ProcessingLayer.data 0 trained = ([], (Ok (Some t), trained)).
Proof.
  intros ready.
  apply (averaged_output_is_wrapped (H := toy) dense 0 ["x"]
           (one_layer decay9) (fresh_layer decay9) (Finite (9 # 10))
           ready.1 trained ["weights"]).
  - reflexivity.
  - reflexivity.
  - reflexivity.
  - reflexivity.
  - vm_compute. reflexivity.
  - vm_compute. reflexivity.
  - discriminate.
Defined.

End MoreExamples.

Section SteplessExample.
#[local] Existing Instance Stepless.toy.

Lemma setup_needs_the_global_step_witness :
  let averaged :=
    Obj {| name := "fc"; do_summary := true; bag := None; is_setup := None |}
        (Layer Toy.decay9 0 false None None None None) in
  let w := World {[ 0 := averaged ]} {[ 0 := [] ]} [] [] in
  ProcessingLayer.setup (fun _ => Return) 0 [] w
  = ([ScopeEnter "fc" None; Begin PreSetup; Begin PreSetupShared;
      Raised PreSetupShared
        (ValueError "Variable global_step does not exist");
      ScopeExit],
     (Raise (ValueError "Variable global_step does not exist"), w)).
Proof.
  intros averaged w.
  apply (setup_needs_the_global_step (H := Stepless.toy) (fun _ => Return)
           0 [] w averaged (Finite (9 # 10)) [] []
           (ValueError "Variable global_step does not exist") []);
    reflexivity.
Defined.

End SteplessExample.
